(** * Vision target estimator: the orientation Kalman filter and the
      position estimator's arbitration predicates

    Shallow embedding of
    - [src/modules/vision_target_estimator/Orientation/KF_orientation_unified.cpp]
      (state [yaw, yaw_rate]), and
    - the inline predicates of
      [src/modules/vision_target_estimator/Position/VTEPosition.h].

    Number model.  The filter computes on C [float]s through the templated
    [matrix::Matrix<Type, M, N>] library, which is not part of the sources at
    hand.  Scalars are embedded as real numbers ([R]) and every matrix
    operator as the mathematical operation it denotes, so all results below
    are statements about the filter in exact arithmetic: rounding, overflow
    and NaN are outside the model.  Where rounding decides a property,
    [update] is embedded a second time on IEEE binary32 numbers (module
    [binary32]).  Time stamps ([hrt_abstime], [uint64_t])
    and the fusion masks ([uint8_t]) are embedded as [Z] with the
    wrap-around and the bit operations written out. *)

From Stdlib Require Import Reals Lra Lia ZArith Bool List FunctionalExtensionality.
From Stdlib Require Floats.SpecFloat.
Import ListNotations.

Local Open Scope R_scope.

(** ** The [matrix] namespace *)

Module matrix.

(** [matrix::Matrix<float, M, N>]: entry [(i, j)].  A [Vector<float, M>] is
    the [M x 1] matrix, [v(i)] its entry [(i, 0)].  Only entries inside the
    dimensions are ever read. *)
Definition Matrix : Type := nat -> nat -> R.

(** The accumulation [res += f(k)] for [k = 0 .. n-1]. *)
Fixpoint sum_upto (n : nat) (f : nat -> R) : R :=
  match n with
  | O => 0
  | S k => sum_upto k f + f k
  end.

(** [a * b] for [a : M x inner], [b : inner x N]. *)
Definition mmul (inner : nat) (a b : Matrix) : Matrix :=
  fun i j => sum_upto inner (fun k => a i k * b k j).

Definition transpose (a : Matrix) : Matrix := fun i j => a j i.

Definition madd (a b : Matrix) : Matrix := fun i j => a i j + b i j.

Definition msub (a b : Matrix) : Matrix := fun i j => a i j - b i j.

(** [a * s] and [a / s] for a scalar [s]. *)
Definition mscale (a : Matrix) (s : R) : Matrix := fun i j => a i j * s.

Definition mdiv (a : Matrix) (s : R) : Matrix := fun i j => a i j / s.

(** The assignment [a(i, j) = v]. *)
Definition set_entry (a : Matrix) (i j : nat) (v : R) : Matrix :=
  fun i' j' => if (Nat.eqb i' i && Nat.eqb j' j)%bool then v else a i' j'.

Definition zero : Matrix := fun _ _ => 0.

Definition identity : Matrix := fun i j => if Nat.eqb i j then 1 else 0.

(** Equality of the entries inside the dimensions [M x N]. *)
Definition meq (M N : nat) (a b : Matrix) : Prop :=
  forall i j, (i < M)%nat -> (j < N)%nat -> a i j = b i j.

Definition symmetric (n : nat) (a : Matrix) : Prop :=
  meq n n a (transpose a).

(** Modelled from the spec: [matrix::wrap_pi] belongs to the matrix library,
    which is missing from the sources.  The spec keeps angular components
    "wrapped to (-pi, pi]": [wrap_pi x] is [x] shifted by the whole number of
    turns that brings it into that interval ([up r] is the integer with
    [r < up r <= r + 1]). *)
Definition wrap_pi (x : R) : R :=
  x + 2 * PI * IZR (up ((PI - x) / (2 * PI)) - 1).

(** Two angles that differ by a whole number of turns. *)
Definition same_angle (a b : R) : Prop :=
  exists k : Z, a = b + 2 * PI * IZR k.

(** Modelled from the spec: [matrix::inv] belongs to the matrix library,
    which is missing from the sources.  The spec's "inverse state-transition
    matrix", for the two-state filter: the adjugate over the determinant. *)
Definition inv2 (a : Matrix) : Matrix :=
  let det := a 0%nat 0%nat * a 1%nat 1%nat - a 1%nat 0%nat * a 0%nat 1%nat in
  fun i j =>
    match i, j with
    | 0%nat, 0%nat => a 1%nat 1%nat / det
    | 0%nat, 1%nat => - a 0%nat 1%nat / det
    | 1%nat, 0%nat => - a 1%nat 0%nat / det
    | 1%nat, 1%nat => a 0%nat 0%nat / det
    | _, _ => 0
    end.

(** [x^T * a * y] for column vectors [x] and [y]: the only entry of the
    [1 x 1] product, as [computeInnovCov] reads it with [(0, 0)]. *)
Definition bilin (n : nat) (a x y : Matrix) : R :=
  mmul n (mmul n (transpose x) a) y 0%nat 0%nat.

(** The variance [x^T * a * x] a covariance [a] gives along [x], and
    positive semi-definiteness. *)
Definition quad (n : nat) (a x : Matrix) : R := bilin n a x x.

Definition psd (n : nat) (a : Matrix) : Prop := forall x, 0 <= quad n a x.

End matrix.

(** ** [KF_orientation_unified]: the yaw filter *)

Module KF_orientation_unified.
Import matrix.

(** The members the methods of [KF_orientation_unified.cpp] read and write
    (their declarations are in the class header). *)
Record t : Type := mk {
  _state : Matrix;                 (* Vector<float, State::size> *)
  _sync_state : Matrix;            (* Vector<float, State::size> *)
  _state_covariance : Matrix;      (* SquareMatrix<float, State::size> *)
  _meas_matrix_row_vect : Matrix;  (* Vector<float, State::size> *)
  _innov : R;
  _innov_cov : R;
  _nis_threshold : R
}.

Definition set_state (f : t) (v : Matrix) : t :=
  mk v (_sync_state f) (_state_covariance f) (_meas_matrix_row_vect f)
     (_innov f) (_innov_cov f) (_nis_threshold f).

Definition set_sync_state (f : t) (v : Matrix) : t :=
  mk (_state f) v (_state_covariance f) (_meas_matrix_row_vect f)
     (_innov f) (_innov_cov f) (_nis_threshold f).

Definition set_state_covariance (f : t) (p : Matrix) : t :=
  mk (_state f) (_sync_state f) p (_meas_matrix_row_vect f)
     (_innov f) (_innov_cov f) (_nis_threshold f).

Definition set_innov (f : t) (x : R) : t :=
  mk (_state f) (_sync_state f) (_state_covariance f) (_meas_matrix_row_vect f)
     x (_innov_cov f) (_nis_threshold f).

Definition set_innov_cov (f : t) (x : R) : t :=
  mk (_state f) (_sync_state f) (_state_covariance f) (_meas_matrix_row_vect f)
     (_innov f) x (_nis_threshold f).

(** The guard constant [1e-6f] of [update]. *)
Definition innov_cov_min : R := 1 / 1000000.

Section Filter.

(** [State::size], [getPhi] and [matrix::inv] come from headers that are
    not part of the sources: the methods are embedded for any state size,
    any transition-matrix supplier and any inversion routine. *)
Variable size : nat.
Variable getPhi : R -> Matrix.
Variable inv : Matrix -> Matrix.

(** The loop
    [for (int i = 0; i < State::size; i++) v(i) = matrix::wrap_pi(v(i));]
    after [k] iterations. *)
Fixpoint wrap_components (k : nat) (v : Matrix) : Matrix :=
  match k with
  | O => v
  | S i =>
      let v' := wrap_components i v in
      set_entry v' i 0 (wrap_pi (v' i 0%nat))
  end.

Definition predictState (dt : R) (f : t) : t :=
  let phi := getPhi dt in
  let f1 := set_state f (mmul size phi (_state f)) in
  set_state f1 (wrap_components size (_state f1)).

Definition predictCov (dt : R) (f : t) : t :=
  let phi := getPhi dt in
  set_state_covariance f
    (mmul size (mmul size phi (_state_covariance f)) (transpose phi)).

(** [update] returns its [bool] together with the filter it leaves. *)
Definition update (f : t) : bool * t :=
  (* Avoid zero-division *)
  if Rlt_dec (Rabs (_innov_cov f)) innov_cov_min then (false, f)
  else
    let beta := _innov f / _innov_cov f * _innov f in
    (* Normalized innovation squared threshold *)
    if Rgt_dec beta (_nis_threshold f) then (false, f)
    else
      let kalmanGain :=
        mdiv (mmul size (_state_covariance f) (_meas_matrix_row_vect f))
             (_innov_cov f) in
      let f1 := set_state f (madd (_state f) (mscale kalmanGain (_innov f))) in
      let f2 := set_state f1 (wrap_components size (_state f1)) in
      let f3 :=
        set_state_covariance f2
          (msub (_state_covariance f2)
                (mmul size
                   (mmul 1 kalmanGain (transpose (_meas_matrix_row_vect f2)))
                   (_state_covariance f2))) in
      (true, f3).

Definition syncState (dt : R) (f : t) : t :=
  let phi := getPhi dt in
  let f1 := set_sync_state f (mmul size (inv phi) (_state f)) in
  set_sync_state f1 (wrap_components size (_sync_state f1)).

Definition computeInnovCov (meas_unc : R) (f : t) : R * t :=
  let s :=
    mmul size
      (mmul size (transpose (_meas_matrix_row_vect f)) (_state_covariance f))
      (_meas_matrix_row_vect f) 0%nat 0%nat + meas_unc in
  (s, set_innov_cov f s).

Definition computeInnov (meas : R) (f : t) : R * t :=
  (* z - H*x *)
  let d :=
    meas - mmul size (transpose (_meas_matrix_row_vect f)) (_sync_state f)
             0%nat 0%nat in
  (d, set_innov f d).

(** The spec's quantities, in its own words: the normalized innovation
    squared [innovation^2 / S], the Kalman gain
    [covariance * observationRow / S] and the row
    [observationRow^T * covariance]. *)
Definition nis (f : t) : R := _innov f * _innov f / _innov_cov f.

Definition cov_times_row (f : t) (i : nat) : R :=
  sum_upto size
    (fun j => _state_covariance f i j * _meas_matrix_row_vect f j 0%nat).

Definition kalman_gain (f : t) (i : nat) : R :=
  cov_times_row f i / _innov_cov f.

Definition row_times_cov (f : t) (j : nat) : R :=
  sum_upto size
    (fun k => _meas_matrix_row_vect f k 0%nat * _state_covariance f k j).

(** A call of one of the filter's methods, and a sequence of calls run on a
    filter (the values the calls return are dropped). *)
Inductive call : Type :=
| PredictState (dt : R)
| PredictCov (dt : R)
| Update
| SyncState (dt : R)
| ComputeInnovCov (meas_unc : R)
| ComputeInnov (meas : R).

Definition step (c : call) (f : t) : t :=
  match c with
  | PredictState dt => predictState dt f
  | PredictCov dt => predictCov dt f
  | Update => snd (update f)
  | SyncState dt => syncState dt f
  | ComputeInnovCov r => snd (computeInnovCov r f)
  | ComputeInnov z => snd (computeInnov z f)
  end.

Definition run (cs : list call) (f : t) : t :=
  fold_left (fun g c => step c g) cs f.

(** The product [getPhi(dt_n) * ... * getPhi(dt_1)] of the transition
    matrices of successive predictions by [dt_1], ..., [dt_n]. *)
Fixpoint phi_product (dts : list R) : Matrix :=
  match dts with
  | [] => identity
  | dt :: rest => mmul size (phi_product rest) (getPhi dt)
  end.

End Filter.

(** Modelled from the spec: the state layout is the generated [State]
    struct, which is missing from the sources; the file header gives it as
    "State: [yaw, yaw_rate]". *)
Module State.
Definition yaw : nat := 0.
Definition yaw_rate : nat := 1.
Definition size : nat := 2.
End State.

(** Modelled from the spec: the orientation filter's [getPhi] is defined in
    the class header, which is missing from the sources.  "For orientation,
    yaw propagates via yaw += yaw_rate * dt, yaw_rate constant." *)
Definition yaw_getPhi (dt : R) : Matrix :=
  fun i j =>
    match i, j with
    | 0%nat, 0%nat => 1
    | 0%nat, 1%nat => dt
    | 1%nat, 0%nat => 0
    | 1%nat, 1%nat => 1
    | _, _ => 0
    end.

(** A two-component column vector, and a yaw filter with identity
    covariance that observes the yaw (row [1, 0]). *)
Definition vec2 (a b : R) : Matrix :=
  fun i j =>
    match i, j with
    | 0%nat, 0%nat => a
    | 1%nat, 0%nat => b
    | _, _ => 0
    end.

Definition yaw_filter (yaw yaw_rate innov innov_cov nis_threshold : R) : t :=
  mk (vec2 yaw yaw_rate) (vec2 yaw yaw_rate) identity (vec2 1 0)
     innov innov_cov nis_threshold.

End KF_orientation_unified.

(** ** [update] on binary32 numbers *)

Module binary32.

(** The C type [float]: IEEE 754 binary32 with rounding to nearest, ties to
    even, as [SpecFloat] specifies it for a precision of 24 bits and a
    maximal exponent of 128. *)
Definition prec : Z := 24.
Definition emax : Z := 128.

Definition float : Type := SpecFloat.spec_float.

(** The [float] nearest to [m * 2^e], and the [float] of an integer. *)
Definition of_scaled (m e : Z) : float :=
  SpecFloat.binary_normalize prec emax m e false.

Definition of_Z (m : Z) : float := of_scaled m 0.

Definition add : float -> float -> float := SpecFloat.SFadd prec emax.
Definition sub : float -> float -> float := SpecFloat.SFsub prec emax.
Definition mul : float -> float -> float := SpecFloat.SFmul prec emax.
Definition div : float -> float -> float := SpecFloat.SFdiv prec emax.
Definition fabsf : float -> float := SpecFloat.SFabs.
(** [a < b]; [false] when either is NaN. *)
Definition lt : float -> float -> bool := SpecFloat.SFltb.

(** [matrix::Matrix<float, M, N>] and its operators, with every scalar
    operation rounded.  A product entry is accumulated from zero in the
    order of the inner index. *)
Definition Matrix : Type := nat -> nat -> float.

Fixpoint sum_upto (n : nat) (f : nat -> float) : float :=
  match n with
  | O => of_Z 0
  | S k => add (sum_upto k f) (f k)
  end.

Definition mmul (inner : nat) (a b : Matrix) : Matrix :=
  fun i j => sum_upto inner (fun k => mul (a i k) (b k j)).

Definition transpose (a : Matrix) : Matrix := fun i j => a j i.

Definition madd (a b : Matrix) : Matrix := fun i j => add (a i j) (b i j).

Definition msub (a b : Matrix) : Matrix := fun i j => sub (a i j) (b i j).

Definition mscale (a : Matrix) (s : float) : Matrix :=
  fun i j => mul (a i j) s.

Definition mdiv (a : Matrix) (s : float) : Matrix :=
  fun i j => div (a i j) s.

Definition set_entry (a : Matrix) (i j : nat) (v : float) : Matrix :=
  fun i' j' => if (Nat.eqb i' i && Nat.eqb j' j)%bool then v else a i' j'.

Record t : Type := mk {
  _state : Matrix;
  _sync_state : Matrix;
  _state_covariance : Matrix;
  _meas_matrix_row_vect : Matrix;
  _innov : float;
  _innov_cov : float;
  _nis_threshold : float
}.

Definition set_state (f : t) (v : Matrix) : t :=
  mk v (_sync_state f) (_state_covariance f) (_meas_matrix_row_vect f)
     (_innov f) (_innov_cov f) (_nis_threshold f).

Definition set_state_covariance (f : t) (p : Matrix) : t :=
  mk (_state f) (_sync_state f) p (_meas_matrix_row_vect f)
     (_innov f) (_innov_cov f) (_nis_threshold f).

Definition set_innov_cov (f : t) (v : float) : t :=
  mk (_state f) (_sync_state f) (_state_covariance f) (_meas_matrix_row_vect f)
     (_innov f) v (_nis_threshold f).

(** The literal [1e-6f]: the [float] nearest to [10^-6] is
    [8796093 * 2^-43]. *)
Definition innov_cov_min : float := of_scaled 8796093 (-43).

Section Filter.

(** [State::size], and [matrix::wrap_pi] on [float]s: the matrix library
    is missing from the sources, and the covariance [update] writes does
    not depend on the wrapping. *)
Variable size : nat.
Variable wrap_pi : float -> float.

Fixpoint wrap_components (k : nat) (v : Matrix) : Matrix :=
  match k with
  | O => v
  | S i =>
      let v' := wrap_components i v in
      set_entry v' i 0 (wrap_pi (v' i 0%nat))
  end.

Definition update (f : t) : bool * t :=
  (* Avoid zero-division *)
  if lt (fabsf (_innov_cov f)) innov_cov_min then (false, f)
  else
    let beta := mul (div (_innov f) (_innov_cov f)) (_innov f) in
    (* Normalized innovation squared threshold *)
    if lt (_nis_threshold f) beta then (false, f)
    else
      let kalmanGain :=
        mdiv (mmul size (_state_covariance f) (_meas_matrix_row_vect f))
             (_innov_cov f) in
      let f1 := set_state f (madd (_state f) (mscale kalmanGain (_innov f))) in
      let f2 := set_state f1 (wrap_components size (_state f1)) in
      let f3 :=
        set_state_covariance f2
          (msub (_state_covariance f2)
                (mmul size
                   (mmul 1 kalmanGain (transpose (_meas_matrix_row_vect f2)))
                   (_state_covariance f2))) in
      (true, f3).

Definition computeInnovCov (meas_unc : float) (f : t) : float * t :=
  let s :=
    add (mmul size
           (mmul size (transpose (_meas_matrix_row_vect f))
                 (_state_covariance f))
           (_meas_matrix_row_vect f) 0%nat 0%nat)
        meas_unc in
  (s, set_innov_cov f s).

End Filter.

(** A two-component column vector and a symmetric [2 x 2] matrix of
    integers. *)
Definition vec2 (a b : Z) : Matrix :=
  fun i j =>
    match i, j with
    | 0%nat, 0%nat => of_Z a
    | 1%nat, 0%nat => of_Z b
    | _, _ => of_Z 0
    end.

Definition sym2 (a b c : Z) : Matrix :=
  fun i j =>
    match i, j with
    | 0%nat, 0%nat => of_Z a
    | 0%nat, 1%nat => of_Z b
    | 1%nat, 0%nat => of_Z b
    | 1%nat, 1%nat => of_Z c
    | _, _ => of_Z 0
    end.

(** A yaw filter at rest with covariance [[7, 3], [3, 2]] that observes
    the yaw (row [1, 0]), with zero innovation and threshold 9; and the
    same filter after [computeInnovCov] with measurement uncertainty 3. *)
Definition resting : t :=
  mk (vec2 0 0) (vec2 0 0) (sym2 7 3 2) (vec2 1 0) (of_Z 0) (of_Z 0) (of_Z 9).

Definition measured : t := snd (computeInnovCov 2 (of_Z 3) resting).

End binary32.

(** ** [VTEPosition]: arbitration predicates and timeout state *)

Module VTEPosition.

Local Open Scope Z_scope.

(** [uint64_t] arithmetic ([hrt_abstime]) wraps modulo [2^64]. *)
Definition uint64 (v : Z) : Z := v mod 2 ^ 64.

(* timeout after which the target is not valid if no measurements are seen *)
Definition target_valid_TIMEOUT_US : Z := 2000000.
(* timeout after which the measurement is not valid *)
Definition measurement_valid_TIMEOUT_US : Z := 1000000.
(* timeout after which the measurement is not considered updated *)
Definition measurement_updated_TIMEOUT_US : Z := 100000.

(** [hrt_absolute_time()] is the platform clock: its reading is the
    argument [now]. *)
Definition _is_meas_valid (now time_stamp : Z) : bool :=
  uint64 (now - time_stamp) <? measurement_valid_TIMEOUT_US.

Definition _is_meas_updated (now time_stamp : Z) : bool :=
  uint64 (now - time_stamp) <? measurement_updated_TIMEOUT_US.

Inductive Direction : Type := x | y | z.

Inductive ObservationType : Type :=
| target_gps_pos
| mission_gps_pos
| uav_gps_vel
| target_gps_vel
| fiducial_marker
| uwb.

(** [matrix::Vector3f], indexed by direction. *)
Definition Vector3f : Type := Direction -> R.

Record targetObsPos : Type := {
  type : ObservationType;
  timestamp : Z;
  updated : bool;
  meas_xyz : Vector3f;
  meas_unc_xyz : Vector3f;
  meas_h_xyz : Direction -> nat -> R
}.

(** [enum ObservationValidMask : uint8_t]: bit locations for valid
    observations. *)
Definition NO_VALID_DATA : Z := 0.
Definition FUSE_TARGET_GPS_POS : Z := Z.shiftl 1 0.
Definition FUSE_UAV_GPS_VEL : Z := Z.shiftl 1 1.
Definition FUSE_EXT_VIS_POS : Z := Z.shiftl 1 2.
Definition FUSE_MISSION_POS : Z := Z.shiftl 1 3.
Definition FUSE_TARGET_GPS_VEL : Z := Z.shiftl 1 4.
Definition FUSE_UWB : Z := Z.shiftl 1 5.

(** The conversion of an integer to [bool]: non-zero is [true]. *)
Definition to_bool (v : Z) : bool := negb (v =? 0).

Definition _hasNewNonGpsPositionSensorData (vte_fusion_aid_mask : Z) : bool :=
  to_bool (Z.land vte_fusion_aid_mask FUSE_EXT_VIS_POS)
  || to_bool (Z.land vte_fusion_aid_mask FUSE_UWB).

Definition _hasNewPositionSensorData (vte_fusion_aid_mask : Z) : bool :=
  to_bool (Z.land vte_fusion_aid_mask
             (Z.lor (Z.lor FUSE_MISSION_POS FUSE_TARGET_GPS_POS)
                    FUSE_EXT_VIS_POS)).

Definition _hasNewVelocitySensorData (vte_fusion_aid_mask : Z) : bool :=
  to_bool (Z.land vte_fusion_aid_mask
             (Z.lor FUSE_TARGET_GPS_VEL FUSE_UAV_GPS_VEL)).

Record vecStamped : Type := {
  vs_timestamp : Z;
  vs_valid : bool;
  vs_xyz : Vector3f
}.

(** The members of [VTEPosition] the claims speak of.  [_target_estimator]
    holds, per direction, the position estimate of the axis filter
    ([None] for [nullptr]); [bias] is the spec's per-axis bias state, which
    the code keeps inside the axis filters. *)
Record t : Type := mk {
  _has_timed_out : bool;
  _pos_rel_gnss : vecStamped;
  _bias_set : bool;
  _estimator_initialized : bool;
  _target_estimator : Direction -> option R;
  bias : Vector3f;
  _last_predict : Z;
  _last_update : Z;
  _vte_TIMEOUT_US : Z
}.

Definition has_timed_out (e : t) : bool := _has_timed_out e.

(** Only estimate the GNSS bias if we have a GNSS estimation and a
    secondary source of position. *)
Definition _should_set_bias (now : Z) (e : t) (vte_fusion_aid_mask : Z) : bool :=
  _is_meas_valid now (vs_timestamp (_pos_rel_gnss e))
  && _hasNewNonGpsPositionSensorData vte_fusion_aid_mask.

(** *** The parts defined in [VTEPosition.cpp] *)

(** The flag of [ObservationValidMask] that says an observation of the
    given type is ready to be fused (the comments of the two enums). *)
Definition flag_of (s : ObservationType) : Z :=
  match s with
  | target_gps_pos => FUSE_TARGET_GPS_POS
  | mission_gps_pos => FUSE_MISSION_POS
  | uav_gps_vel => FUSE_UAV_GPS_VEL
  | target_gps_vel => FUSE_TARGET_GPS_VEL
  | fiducial_marker => FUSE_EXT_VIS_POS
  | uwb => FUSE_UWB
  end.

(** Modelled from the spec: [getPosInit] is defined in [VTEPosition.cpp],
    which is missing from the sources.  "select an initial position
    estimate using the highest-priority available position source (priority
    order: mission position, target GNSS position, vision, UWB - first
    available wins)". *)
Definition position_priority : list ObservationType :=
  [mission_gps_pos; target_gps_pos; fiducial_marker; uwb].

Definition first_available (vte_fusion_aid_mask : Z) : option ObservationType :=
  find (fun s => to_bool (Z.land vte_fusion_aid_mask (flag_of s)))
       position_priority.

Definition getPosInit (vte_fusion_aid_mask : Z)
    (observations : ObservationType -> targetObsPos) : Vector3f :=
  match first_available vte_fusion_aid_mask with
  | Some s => meas_xyz (observations s)
  | None => fun _ => 0%R
  end.

(** Modelled from the spec: [initializeEstimator] is defined in
    [VTEPosition.cpp], which is missing from the sources.  "initialize all
    three axis filters [...] in one atomic step.  Fails (estimator stays
    Uninitialized) if no position source is valid."  The position sources
    are the four of the priority order; the header's
    [_hasNewPositionSensorData] has no caller in the sources and plays no
    part here. *)
Definition initializeEstimator (vte_fusion_aid_mask : Z)
    (observations : ObservationType -> targetObsPos) (e : t) : bool * t :=
  match first_available vte_fusion_aid_mask with
  | None => (false, e)
  | Some _ =>
      let pos_init := getPosInit vte_fusion_aid_mask observations in
      (true,
       mk (_has_timed_out e) (_pos_rel_gnss e) (_bias_set e) true
          (fun d => Some (pos_init d)) (bias e)
          (_last_predict e) (_last_update e) (_vte_TIMEOUT_US e))
  end.

(** Modelled from the spec: [updateBias] and its call site are defined in
    [VTEPosition.cpp], which is missing from the sources.  The bias is "the
    estimated offset between the GNSS-derived relative position and a
    secondary position source (vision/UWB)", and the cycle of an
    initialized estimator "updates bias state if both a GNSS-relative
    position observation and a non-GNSS position observation are valid
    this cycle".  The test is the header's [_should_set_bias], whose
    comment reads "Only estimate the GNSS bias if we have a GNSS estimation
    and a secondary source of position". *)
Definition updateBias (vte_fusion_aid_mask : Z)
    (observations : ObservationType -> targetObsPos) (e : t) : t :=
  let secondary :=
    if to_bool (Z.land vte_fusion_aid_mask FUSE_EXT_VIS_POS)
    then observations fiducial_marker else observations uwb in
  mk (_has_timed_out e) (_pos_rel_gnss e) true (_estimator_initialized e)
     (_target_estimator e)
     (fun d => (vs_xyz (_pos_rel_gnss e) d - meas_xyz secondary d)%R)
     (_last_predict e) (_last_update e) (_vte_TIMEOUT_US e).

Definition bias_step (now : Z) (vte_fusion_aid_mask : Z)
    (observations : ObservationType -> targetObsPos) (e : t) : t :=
  if _should_set_bias now e vte_fusion_aid_mask
  then updateBias vte_fusion_aid_mask observations e
  else e.

(** Modelled from the spec: the timeout check, the bookkeeping of
    [_last_update] and [resetFilter] are defined in [VTEPosition.cpp], which
    is missing from the sources.  "check timeout (elapsed since last
    successful update > horizon => mark timed-out, a terminal flag cleared
    only by an explicit external reset/reinitialize call)"; "Updates
    last-update timestamp only if at least one fusion succeeded this
    cycle". *)
Definition elapsed_since_update (now : Z) (e : t) : Z :=
  uint64 (now - _last_update e).

Definition check_timeout (now : Z) (e : t) : t :=
  if elapsed_since_update now e >? _vte_TIMEOUT_US e then
    mk true (_pos_rel_gnss e) (_bias_set e) (_estimator_initialized e)
       (_target_estimator e) (bias e)
       (_last_predict e) (_last_update e) (_vte_TIMEOUT_US e)
  else e.

Definition record_update (now : Z) (e : t) : t :=
  mk (_has_timed_out e) (_pos_rel_gnss e) (_bias_set e)
     (_estimator_initialized e) (_target_estimator e) (bias e)
     (_last_predict e) now (_vte_TIMEOUT_US e).

Definition resetFilter (e : t) : t :=
  mk false (_pos_rel_gnss e) false false (fun _ => None) (bias e)
     (_last_predict e) (_last_update e) (_vte_TIMEOUT_US e).

(** What one cycle is given: the clock reading, the validity mask and the
    observations built this cycle, and whether a fusion succeeded. *)
Record cycle_input : Type := {
  now : Z;
  mask : Z;
  observations : ObservationType -> targetObsPos;
  fused : bool
}.

(** Modelled from the spec: one cycle, in the order of sections 4.4 and
    4.5: bootstrap (estimator not yet initialized) or bias update, the
    last-update time stamp when a fusion succeeded, the timeout check. *)
Definition cycle (i : cycle_input) (e : t) : t :=
  let e1 :=
    if _estimator_initialized e
    then bias_step (now i) (mask i) (observations i) e
    else snd (initializeEstimator (mask i) (observations i) e) in
  let e2 := if fused i then record_update (now i) e1 else e1 in
  check_timeout (now i) e2.

Definition cycles (inputs : list cycle_input) (e : t) : t :=
  fold_left (fun g i => cycle i g) inputs e.

(** The members as the header initializes them ([_vte_TIMEOUT_US = 3_s]). *)
Definition init : t :=
  mk false
     {| vs_timestamp := 0; vs_valid := false; vs_xyz := fun _ => 0%R |}
     false false (fun _ => None) (fun _ => 0%R) 0 0 3000000.


(** An observation array that reports, for each source, the position
    [p s] of that source. *)
Definition reporting (p : ObservationType -> R) (ty : ObservationType)
    : targetObsPos :=
  {| type := ty; timestamp := 0; updated := true;
     meas_xyz := fun _ => p ty; meas_unc_xyz := fun _ => 1%R;
     meas_h_xyz := fun _ _ => 0%R |}.

End VTEPosition.

(** * Properties *)

Section MatrixFacts.
Import matrix.

(** *** Sums *)

Lemma sum_upto_ext (n : nat) (f g : nat -> R) :
  (forall k, (k < n)%nat -> f k = g k) -> sum_upto n f = sum_upto n g.
Proof.
  induction n as [|n IH]; intros H; simpl.
  - reflexivity.
  - rewrite IH by (intros k Hk; apply H; lia).
    rewrite (H n) by lia. reflexivity.
Qed.

Lemma sum_upto_zero (n : nat) : sum_upto n (fun _ => 0) = 0.
Proof. induction n as [|n IH]; simpl; [reflexivity | rewrite IH; ring]. Qed.

Lemma sum_upto_scale_l (n : nat) (c : R) (f : nat -> R) :
  sum_upto n (fun k => c * f k) = c * sum_upto n f.
Proof. induction n as [|n IH]; simpl; [ring | rewrite IH; ring]. Qed.

Lemma sum_upto_scale_r (n : nat) (c : R) (f : nat -> R) :
  sum_upto n (fun k => f k * c) = sum_upto n f * c.
Proof. induction n as [|n IH]; simpl; [ring | rewrite IH; ring]. Qed.

Lemma sum_upto_plus (n : nat) (f g : nat -> R) :
  sum_upto n (fun k => f k + g k) = sum_upto n f + sum_upto n g.
Proof. induction n as [|n IH]; simpl; [ring | rewrite IH; ring]. Qed.

(** Exchange of two finite sums. *)
Lemma sum_upto_swap (m n : nat) (f : nat -> nat -> R) :
  sum_upto m (fun k => sum_upto n (fun l => f k l)) =
  sum_upto n (fun l => sum_upto m (fun k => f k l)).
Proof.
  induction m as [|m IH]; simpl.
  - symmetry. apply sum_upto_zero.
  - rewrite IH. symmetry. apply sum_upto_plus.
Qed.

(** A sum against a row of the identity picks one term. *)
Lemma sum_upto_delta_l (n i : nat) (g : nat -> R) :
  (i < n)%nat -> sum_upto n (fun k => identity i k * g k) = g i.
Proof.
  unfold identity. induction n as [|n IH]; intros Hi; [lia|]. simpl.
  destruct (Nat.eqb_spec i n) as [->|Hne].
  - rewrite (sum_upto_ext n _ (fun _ => 0)).
    + rewrite sum_upto_zero. ring.
    + intros k Hk. destruct (Nat.eqb_spec n k); [lia | ring].
  - rewrite IH by lia. ring.
Qed.

Lemma sum_upto_delta_r (n j : nat) (g : nat -> R) :
  (j < n)%nat -> sum_upto n (fun k => g k * identity k j) = g j.
Proof.
  intros Hj. rewrite <- (sum_upto_delta_l n j g Hj).
  apply sum_upto_ext. intros k _. unfold identity.
  rewrite (Nat.eqb_sym k j). ring.
Qed.

(** *** Products and transposes *)

Lemma mmul_assoc (n : nat) (a b c : Matrix) :
  mmul n (mmul n a b) c = mmul n a (mmul n b c).
Proof.
  extensionality i. extensionality j. unfold mmul.
  rewrite (sum_upto_ext n _
             (fun k => sum_upto n (fun l => a i l * b l k * c k j)))
    by (intros k _; rewrite <- sum_upto_scale_r; reflexivity).
  rewrite sum_upto_swap.
  apply sum_upto_ext. intros l _.
  rewrite <- sum_upto_scale_l.
  apply sum_upto_ext. intros k _. ring.
Qed.

Lemma transpose_mmul (n : nat) (a b : Matrix) :
  transpose (mmul n a b) = mmul n (transpose b) (transpose a).
Proof.
  extensionality i. extensionality j. unfold transpose, mmul.
  apply sum_upto_ext. intros k _. ring.
Qed.

Lemma mmul_identity_l (n : nat) (a : Matrix) :
  meq n n (mmul n identity a) a.
Proof.
  intros i j Hi _. unfold mmul.
  apply (sum_upto_delta_l n i (fun k => a k j) Hi).
Qed.

Lemma mmul_identity_r (n : nat) (a : Matrix) :
  meq n n (mmul n a identity) a.
Proof.
  intros i j _ Hj. unfold mmul.
  apply (sum_upto_delta_r n j (fun k => a i k) Hj).
Qed.

(** *** Symmetric matrices *)

Lemma symmetric_entries (n : nat) (a : Matrix) :
  (forall i j, (i < n)%nat -> (j < n)%nat -> a i j = a j i) -> symmetric n a.
Proof. intros H i j Hi Hj. unfold transpose. apply H; assumption. Qed.

Lemma symmetric_swap (n : nat) (a : Matrix) :
  symmetric n a ->
  forall i j, (i < n)%nat -> (j < n)%nat -> a i j = a j i.
Proof. intros H i j Hi Hj. apply (H i j Hi Hj). Qed.

(** *** Angle wrapping *)

Lemma two_pi_pos : 0 < 2 * PI.
Proof. pose proof PI_RGT_0. lra. Qed.

Lemma wrap_pi_range (x : R) : - PI < wrap_pi x <= PI.
Proof.
  unfold wrap_pi.
  pose proof two_pi_pos as Hp.
  destruct (archimed ((PI - x) / (2 * PI))) as [Hlo Hhi].
  set (q := (PI - x) / (2 * PI)) in *.
  assert (Hx : x = PI - 2 * PI * q) by (unfold q; field; lra).
  rewrite minus_IZR.
  set (u := IZR (up q)) in *.
  split; rewrite Hx at 1; nra.
Qed.

Lemma wrap_pi_same_angle (x : R) : same_angle (wrap_pi x) x.
Proof. unfold same_angle, wrap_pi. eexists. reflexivity. Qed.

(** The wrapped value is the only angle of [(-pi, pi]] a whole number of
    turns away. *)
Lemma wrap_pi_unique (x y : R) (k : Z) :
  - PI < y <= PI -> x = y + 2 * PI * IZR k -> wrap_pi x = y.
Proof.
  intros Hy Hx. unfold wrap_pi.
  pose proof two_pi_pos as Hp.
  assert (Hu : (1 - k)%Z = up ((PI - x) / (2 * PI))).
  { apply tech_up.
    - rewrite minus_IZR. apply Rmult_lt_reg_r with (2 * PI); [exact Hp|].
      replace ((PI - x) / (2 * PI) * (2 * PI)) with (PI - x) by (field; lra).
      subst x. simpl. lra.
    - rewrite minus_IZR. apply Rmult_le_reg_r with (2 * PI); [exact Hp|].
      replace (((PI - x) / (2 * PI) + 1) * (2 * PI)) with (PI - x + 2 * PI)
        by (field; lra).
      subst x. simpl. lra. }
  rewrite <- Hu.
  replace (1 - k - 1)%Z with (- k)%Z by lia.
  rewrite opp_IZR. subst x. ring.
Qed.

Lemma wrap_pi_fixed (y : R) : - PI < y <= PI -> wrap_pi y = y.
Proof.
  intros Hy. apply wrap_pi_unique with (k := 0%Z); [exact Hy|].
  simpl. ring.
Qed.

Lemma wrap_pi_idempotent (x : R) : wrap_pi (wrap_pi x) = wrap_pi x.
Proof. apply wrap_pi_fixed, wrap_pi_range. Qed.

Lemma wrap_pi_shift (x : R) (k : Z) :
  wrap_pi (x + 2 * PI * IZR k) = wrap_pi x.
Proof.
  destruct (wrap_pi_same_angle x) as [m Hm].
  apply wrap_pi_unique with (k := (k - m)%Z); [apply wrap_pi_range|].
  rewrite minus_IZR, Hm. ring.
Qed.

End MatrixFacts.

(** ** The orientation filter *)

Section FilterFacts.
Import matrix KF_orientation_unified.

Variable size : nat.
Variable getPhi : R -> Matrix.
Variable inv : Matrix -> Matrix.

(** The code's [beta] is the spec's [innovation^2 / S]. *)
Lemma beta_is_nis (f : t) : _innov f / _innov_cov f * _innov f = nis f.
Proof. unfold nis, Rdiv. ring. Qed.

(** The wrapping loop rewraps exactly the components below its bound. *)
Lemma wrap_components_entry (k : nat) (v : Matrix) (i j : nat) :
  wrap_components k v i j =
  if (Nat.ltb i k && Nat.eqb j 0)%bool then wrap_pi (v i 0%nat) else v i j.
Proof.
  induction k as [|k IH] in i, j |- *; simpl.
  - reflexivity.
  - unfold set_entry. rewrite !IH.
    destruct (Nat.eqb_spec i k) as [->|Hik]; simpl.
    + rewrite Nat.ltb_irrefl. simpl.
      replace (k <? S k)%nat with true by (symmetry; apply Nat.ltb_lt; lia).
      simpl. destruct (Nat.eqb j 0); reflexivity.
    + destruct (Nat.ltb_spec i k) as [Hlt|Hge].
      * replace (i <? S k)%nat with true by (symmetry; apply Nat.ltb_lt; lia).
        reflexivity.
      * replace (i <? S k)%nat with false by (symmetry; apply Nat.ltb_ge; lia).
        reflexivity.
Qed.

Lemma wrap_components_below (v : Matrix) (i : nat) :
  (i < size)%nat -> wrap_components size v i 0%nat = wrap_pi (v i 0%nat).
Proof.
  intros Hi. rewrite wrap_components_entry.
  apply Nat.ltb_lt in Hi. rewrite Hi. reflexivity.
Qed.

(** The two paths of [update]. *)
Lemma update_guard (f : t) :
  Rabs (_innov_cov f) < innov_cov_min -> update size f = (false, f).
Proof.
  intros H. unfold update.
  destruct (Rlt_dec (Rabs (_innov_cov f)) innov_cov_min); [reflexivity | contradiction].
Qed.

Lemma update_gate (f : t) :
  nis f > _nis_threshold f -> update size f = (false, f).
Proof.
  intros H. unfold update.
  destruct (Rlt_dec (Rabs (_innov_cov f)) innov_cov_min); [reflexivity|].
  rewrite beta_is_nis.
  destruct (Rgt_dec (nis f) (_nis_threshold f)); [reflexivity | contradiction].
Qed.

Lemma update_accept (f : t) :
  Rabs (_innov_cov f) >= innov_cov_min ->
  nis f <= _nis_threshold f ->
  update size f =
  (true,
   mk (wrap_components size
         (madd (_state f)
            (mscale
               (mdiv (mmul size (_state_covariance f) (_meas_matrix_row_vect f))
                     (_innov_cov f))
               (_innov f))))
      (_sync_state f)
      (msub (_state_covariance f)
         (mmul size
            (mmul 1
               (mdiv (mmul size (_state_covariance f) (_meas_matrix_row_vect f))
                     (_innov_cov f))
               (transpose (_meas_matrix_row_vect f)))
            (_state_covariance f)))
      (_meas_matrix_row_vect f) (_innov f) (_innov_cov f) (_nis_threshold f)).
Proof.
  intros HS Hb. unfold update.
  destruct (Rlt_dec (Rabs (_innov_cov f)) innov_cov_min) as [Hlt|_]; [lra|].
  rewrite beta_is_nis.
  destruct (Rgt_dec (nis f) (_nis_threshold f)) as [Hgt|_]; [lra|].
  reflexivity.
Qed.

(** The entries [update] writes, in the spec's quantities. *)
Lemma gain_entry (f : t) (i : nat) :
  mdiv (mmul size (_state_covariance f) (_meas_matrix_row_vect f))
       (_innov_cov f) i 0%nat = kalman_gain size f i.
Proof. reflexivity. Qed.

Lemma gain_row_cov_entry (f : t) (i j : nat) :
  mmul size
    (mmul 1
       (mdiv (mmul size (_state_covariance f) (_meas_matrix_row_vect f))
             (_innov_cov f))
       (transpose (_meas_matrix_row_vect f)))
    (_state_covariance f) i j
  = kalman_gain size f i * row_times_cov size f j.
Proof.
  unfold mmul at 1. unfold row_times_cov.
  rewrite <- sum_upto_scale_l.
  apply sum_upto_ext. intros k _.
  unfold mmul at 1. simpl. rewrite gain_entry. unfold transpose. ring.
Qed.

End FilterFacts.

Section FilterClaims.
Import matrix KF_orientation_unified.

Variable size : nat.
Variable getPhi : R -> Matrix.
Variable inv : Matrix -> Matrix.

(** *** Rejected updates *)

(** C1.  Whenever the stored innovation covariance satisfies
    [|S| < 1e-6], and also whenever the normalized innovation squared
    [innovation^2 / S] exceeds the NIS threshold, [update] returns [false]
    and hands back the very filter it was given: state, covariance and
    every other member are untouched. *)
Theorem update_rejection_leaves_filter (f : t) :
  Rabs (_innov_cov f) < innov_cov_min \/ nis f > _nis_threshold f ->
  update size f = (false, f).
Proof.
  intros [Hguard | Hgate].
  - apply update_guard, Hguard.
  - apply update_gate, Hgate.
Qed.

(** *** Accepted updates *)

Lemma update_applies_kalman_correction_aux (f : t) :
  Rabs (_innov_cov f) >= innov_cov_min ->
  nis f <= _nis_threshold f ->
  fst (update size f) = true
  /\ (forall i, (i < size)%nat ->
        _state (snd (update size f)) i 0%nat
        = wrap_pi (_state f i 0%nat + kalman_gain size f i * _innov f)).
Proof.
  intros HS Hb. rewrite (update_accept size f HS Hb). simpl. split.
  - reflexivity.
  - intros i Hi. rewrite wrap_components_below by exact Hi.
    unfold madd, mscale. rewrite gain_entry. reflexivity.
Qed.

(** C2.  When [|S| >= 1e-6] and [innovation^2 / S] does not exceed the
    threshold, [update] returns [true]; with the gain
    [K = covariance * observationRow / S], the new state is
    [state + K * innovation] with each component rewrapped, the new
    covariance is [covariance - K * observationRow^T * covariance], and the
    remaining members keep their values. *)
Theorem update_applies_kalman_correction (f : t) :
  Rabs (_innov_cov f) >= innov_cov_min ->
  nis f <= _nis_threshold f ->
  fst (update size f) = true
  /\ (forall i, (i < size)%nat ->
        _state (snd (update size f)) i 0%nat
        = wrap_pi (_state f i 0%nat + kalman_gain size f i * _innov f))
  /\ (forall i j,
        _state_covariance (snd (update size f)) i j
        = _state_covariance f i j
          - kalman_gain size f i * row_times_cov size f j)
  /\ _sync_state (snd (update size f)) = _sync_state f
  /\ _meas_matrix_row_vect (snd (update size f)) = _meas_matrix_row_vect f
  /\ _innov (snd (update size f)) = _innov f
  /\ _innov_cov (snd (update size f)) = _innov_cov f
  /\ _nis_threshold (snd (update size f)) = _nis_threshold f.
Proof.
  intros HS Hb.
  destruct (update_applies_kalman_correction_aux f HS Hb) as [Hret Hstate].
  rewrite (update_accept size f HS Hb) in *. simpl in *.
  repeat split; try assumption.
  intros i j. unfold msub. rewrite gain_row_cov_entry. reflexivity.
Qed.

(** *** Symmetry of the covariance *)

Lemma sandwich_entry (a p : Matrix) (i j : nat) :
  mmul size (mmul size a p) (transpose a) i j =
  sum_upto size (fun k => sum_upto size (fun l => a i l * p l k * a j k)).
Proof.
  unfold mmul, transpose. apply sum_upto_ext. intros k _.
  rewrite <- sum_upto_scale_r. reflexivity.
Qed.

Lemma sandwich_symmetric (a p : Matrix) :
  symmetric size p -> symmetric size (mmul size (mmul size a p) (transpose a)).
Proof.
  intros Hp. apply symmetric_entries. intros i j _ _.
  rewrite !sandwich_entry, sum_upto_swap.
  apply sum_upto_ext. intros k Hk.
  apply sum_upto_ext. intros l Hl.
  rewrite (symmetric_swap _ _ Hp l k Hl Hk). ring.
Qed.

Lemma row_times_cov_symmetric (f : t) (j : nat) :
  symmetric size (_state_covariance f) -> (j < size)%nat ->
  row_times_cov size f j = cov_times_row size f j.
Proof.
  intros Hp Hj. unfold row_times_cov, cov_times_row.
  apply sum_upto_ext. intros k Hk.
  rewrite (symmetric_swap _ _ Hp k j Hk Hj). ring.
Qed.

Lemma update_symmetric (f : t) :
  symmetric size (_state_covariance f) ->
  symmetric size (_state_covariance (snd (update size f))).
Proof.
  intros Hp.
  destruct (Rlt_dec (Rabs (_innov_cov f)) innov_cov_min) as [Hlt|Hge].
  { rewrite update_guard by exact Hlt. exact Hp. }
  destruct (Rgt_dec (nis f) (_nis_threshold f)) as [Hgt|Hle].
  { rewrite update_gate by exact Hgt. exact Hp. }
  rewrite update_accept by lra. simpl.
  apply symmetric_entries. intros i j Hi Hj. unfold msub.
  rewrite !gain_row_cov_entry.
  rewrite !row_times_cov_symmetric by assumption.
  rewrite (symmetric_swap _ _ Hp i j Hi Hj). unfold kalman_gain, Rdiv. ring.
Qed.

Lemma step_symmetric (c : call) (f : t) :
  symmetric size (_state_covariance f) ->
  symmetric size (_state_covariance (step size getPhi inv c f)).
Proof.
  intros Hp. destruct c; simpl; try exact Hp.
  - apply sandwich_symmetric, Hp.
  - apply update_symmetric, Hp.
Qed.

(** C4 (as amended).  The code has no symmetrization step.  In exact
    arithmetic the products [phi * P * phi^T] and [P - K * h^T * P] are
    symmetric constructions: starting from a symmetric covariance, the
    covariance equals its transpose after any sequence of calls of the
    filter's methods - in particular after any sequence of [predictCov] and
    [update] calls, accepted or rejected.  On [float]s the two off-diagonal
    entries are rounded differently, so this holds up to rounding only. *)
Theorem covariance_stays_symmetric (cs : list call) (f : t) :
  symmetric size (_state_covariance f) ->
  symmetric size (_state_covariance (run size getPhi inv cs f)).
Proof.
  unfold run. induction cs as [|c cs IH] in f |- *; intros Hp; simpl.
  - exact Hp.
  - apply IH, step_symmetric, Hp.
Qed.

End FilterClaims.

(** *** Symmetry on binary32 numbers *)

Section FloatSymmetry.

(** Neither the value [update] returns nor the covariance it writes
    depends on how the state is wrapped. *)
Lemma binary32_update_any_wrap
    (size : nat) (w1 w2 : binary32.float -> binary32.float) (f : binary32.t) :
  fst (binary32.update size w1 f) = fst (binary32.update size w2 f)
  /\ binary32._state_covariance (snd (binary32.update size w1 f))
     = binary32._state_covariance (snd (binary32.update size w2 f)).
Proof.
  unfold binary32.update.
  destruct (binary32.lt (binary32.fabsf (binary32._innov_cov f))
              binary32.innov_cov_min); [split; reflexivity|].
  destruct (binary32.lt (binary32._nis_threshold f)
              (binary32.mul
                 (binary32.div (binary32._innov f) (binary32._innov_cov f))
                 (binary32._innov f))); split; reflexivity.
Qed.

(** Dividing the gain by [S = 10], or multiplying it by the rounded
    [1 / S], gives the same two [float]s here. *)
Lemma binary32_gain_either_way :
  binary32.div (binary32.of_Z 7) (binary32.of_Z 10)
  = binary32.mul (binary32.of_Z 7)
      (binary32.div (binary32.of_Z 1) (binary32.of_Z 10))
  /\ binary32.div (binary32.of_Z 3) (binary32.of_Z 10)
     = binary32.mul (binary32.of_Z 3)
         (binary32.div (binary32.of_Z 1) (binary32.of_Z 10)).
Proof. split; vm_compute; reflexivity. Qed.

(** C4 fails as stated.  On [float]s, the symmetric covariance
    [[7, 3], [3, 2]] with measurement row [1, 0] and measurement
    uncertainty 3 gives [S = 10]; [update] is accepted and leaves the
    off-diagonal entries [15099496 * 2^-24] (0.90000010) and
    [15099492 * 2^-24] (0.89999986): the covariance no longer equals its
    transpose, and nothing in [update] restores it. *)
Lemma binary32_update_breaks_symmetry :
  binary32._state_covariance binary32.resting 0%nat 1%nat
  = binary32._state_covariance binary32.resting 1%nat 0%nat
  /\ binary32._innov_cov binary32.measured = binary32.of_Z 10
  /\ fst (binary32.update 2 (fun v => v) binary32.measured) = true
  /\ binary32._state_covariance
       (snd (binary32.update 2 (fun v => v) binary32.measured)) 0%nat 1%nat
     = binary32.of_scaled 15099496 (-24)
  /\ binary32._state_covariance
       (snd (binary32.update 2 (fun v => v) binary32.measured)) 1%nat 0%nat
     = binary32.of_scaled 15099492 (-24)
  /\ binary32._state_covariance
       (snd (binary32.update 2 (fun v => v) binary32.measured)) 0%nat 1%nat
     <> binary32._state_covariance
          (snd (binary32.update 2 (fun v => v) binary32.measured))
          1%nat 0%nat.
Proof.
  repeat apply conj; try (vm_compute; reflexivity).
  vm_compute. discriminate.
Qed.

End FloatSymmetry.

Section MoreFilterClaims.
Import matrix KF_orientation_unified.

Variable size : nat.
Variable getPhi : R -> Matrix.
Variable inv : Matrix -> Matrix.

(** *** Covariance prediction *)

Lemma sandwich_compose (a b p : Matrix) :
  mmul size (mmul size a (mmul size (mmul size b p) (transpose b)))
       (transpose a)
  = mmul size (mmul size (mmul size a b) p) (transpose (mmul size a b)).
Proof. rewrite transpose_mmul, !mmul_assoc. reflexivity. Qed.

Lemma sandwich_identity (p : Matrix) :
  meq size size (mmul size (mmul size identity p) (transpose identity)) p.
Proof.
  intros i j Hi Hj. rewrite mmul_assoc.
  rewrite (mmul_identity_l size _ i j Hi Hj).
  replace (transpose identity) with identity.
  - apply mmul_identity_r; assumption.
  - extensionality k. extensionality l. unfold transpose, identity.
    rewrite (Nat.eqb_sym l k). reflexivity.
Qed.

Lemma run_predictCov_cons (dt : R) (dts : list R) (f : t) :
  run size getPhi inv (map PredictCov (dt :: dts)) f
  = run size getPhi inv (map PredictCov dts) (predictCov size getPhi dt f).
Proof. reflexivity. Qed.

Lemma repeated_predictCov (dts : list R) (f : t) :
  meq size size
    (_state_covariance (run size getPhi inv (map PredictCov dts) f))
    (mmul size
       (mmul size (phi_product size getPhi dts) (_state_covariance f))
       (transpose (phi_product size getPhi dts))).
Proof.
  induction dts as [|dt dts IH] in f |- *.
  - intros i j Hi Hj. simpl. symmetry. apply sandwich_identity; assumption.
  - intros i j Hi Hj. rewrite run_predictCov_cons, (IH _ i j Hi Hj).
    simpl. rewrite sandwich_compose. reflexivity.
Qed.

(** C9.  [predictCov dt] replaces the covariance [P] by exactly
    [phi(dt) * P * phi(dt)^T] and touches nothing else.  No process-noise
    term enters: entry [(i, j)] is the plain double sum
    [sum_k sum_l phi(i,l) * P(l,k) * phi(j,k)], a zero covariance stays
    zero, and any number of successive predictions amounts to one sandwich
    between the product of their transition matrices. *)
Theorem predictCov_is_plain_sandwich (dt : R) (f : t) :
  _state_covariance (predictCov size getPhi dt f)
  = mmul size (mmul size (getPhi dt) (_state_covariance f))
         (transpose (getPhi dt))
  /\ (forall i j,
        _state_covariance (predictCov size getPhi dt f) i j
        = sum_upto size (fun k => sum_upto size (fun l =>
            getPhi dt i l * _state_covariance f l k * getPhi dt j k)))
  /\ (meq size size (_state_covariance f) zero ->
      meq size size (_state_covariance (predictCov size getPhi dt f)) zero)
  /\ (forall dts : list R,
        meq size size
          (_state_covariance (run size getPhi inv (map PredictCov dts) f))
          (mmul size
             (mmul size (phi_product size getPhi dts) (_state_covariance f))
             (transpose (phi_product size getPhi dts))))
  /\ _state (predictCov size getPhi dt f) = _state f
  /\ _sync_state (predictCov size getPhi dt f) = _sync_state f
  /\ _meas_matrix_row_vect (predictCov size getPhi dt f)
     = _meas_matrix_row_vect f
  /\ _innov (predictCov size getPhi dt f) = _innov f
  /\ _innov_cov (predictCov size getPhi dt f) = _innov_cov f
  /\ _nis_threshold (predictCov size getPhi dt f) = _nis_threshold f.
Proof.
  repeat split.
  - intros i j. apply sandwich_entry.
  - intros Hz i j _ _.
    change (_state_covariance (predictCov size getPhi dt f))
      with (mmul size (mmul size (getPhi dt) (_state_covariance f))
              (transpose (getPhi dt))).
    rewrite sandwich_entry.
    rewrite (sum_upto_ext size _ (fun _ => 0)); [apply sum_upto_zero|].
    intros k Hk.
    rewrite (sum_upto_ext size _ (fun _ => 0)); [apply sum_upto_zero|].
    intros l Hl. rewrite (Hz l k Hl Hk). unfold zero. ring.
  - intros dts. apply repeated_predictCov.
Qed.

(** *** A negative innovation covariance *)

Lemma nis_nonpositive (f : t) : _innov_cov f < 0 -> nis f <= 0.
Proof.
  intros HS. unfold nis, Rdiv.
  pose proof (Rinv_lt_0_compat _ HS) as Hinv.
  pose proof (Rle_0_sqr (_innov f)) as Hsq. unfold Rsqr in Hsq.
  nra.
Qed.

(** C10.  With a nonnegative NIS threshold, a stored innovation covariance
    [S] that is negative with [|S| >= 1e-6] is always accepted: the guard
    looks at [|S|] only, the gate value [innovation^2 / S] is nonpositive
    and cannot exceed the threshold, so [update] returns [true] and corrects
    the state with the gain [covariance * observationRow / S], divided by
    the negative [S]. *)
Theorem update_accepts_negative_innov_cov (f : t) :
  0 <= _nis_threshold f ->
  _innov_cov f < 0 ->
  Rabs (_innov_cov f) >= innov_cov_min ->
  nis f <= 0
  /\ fst (update size f) = true
  /\ (forall i, (i < size)%nat ->
        _state (snd (update size f)) i 0%nat
        = wrap_pi (_state f i 0%nat
                   + cov_times_row size f i / _innov_cov f * _innov f)).
Proof.
  intros Hthr HS Habs.
  pose proof (nis_nonpositive f HS) as Hnis.
  assert (Hle : nis f <= _nis_threshold f) by lra.
  destruct (update_applies_kalman_correction_aux size f Habs Hle)
    as (Hret & Hstate).
  repeat split; assumption.
Qed.

(** *** Wrapped components *)

Lemma update_accepted_inv (f : t) :
  fst (update size f) = true ->
  Rabs (_innov_cov f) >= innov_cov_min /\ nis f <= _nis_threshold f.
Proof.
  intros H.
  destruct (Rlt_dec (Rabs (_innov_cov f)) innov_cov_min) as [Hlt|Hge].
  { rewrite update_guard in H by exact Hlt. discriminate. }
  destruct (Rgt_dec (nis f) (_nis_threshold f)) as [Hgt|Hle].
  { rewrite update_gate in H by exact Hgt. discriminate. }
  lra.
Qed.

(** C6.  Every state component produced by [predictState], by an accepted
    [update] or by [syncState] lies in [(-pi, pi]], for every filter and
    every [dt]: each of the three ends with the loop that passes all
    [State::size] components through [wrap_pi]. *)
Theorem components_wrapped (dt : R) (f : t) (i : nat) :
  (i < size)%nat ->
  - PI < _state (predictState size getPhi dt f) i 0%nat <= PI
  /\ (fst (update size f) = true ->
      - PI < _state (snd (update size f)) i 0%nat <= PI)
  /\ - PI < _sync_state (syncState size getPhi inv dt f) i 0%nat <= PI.
Proof.
  intros Hi. split; [|split].
  - simpl. rewrite wrap_components_below by exact Hi. apply wrap_pi_range.
  - intros Hacc. apply update_accepted_inv in Hacc as [HS Hb].
    rewrite (update_accept size f HS Hb). simpl.
    rewrite wrap_components_below by exact Hi. apply wrap_pi_range.
  - simpl. rewrite wrap_components_below by exact Hi. apply wrap_pi_range.
Qed.

End MoreFilterClaims.

(** ** The yaw filter: prediction and resynchronization *)

Section YawFilter.
Import matrix KF_orientation_unified.

Lemma yaw_getPhi_zero : meq State.size State.size (yaw_getPhi 0) identity.
Proof.
  intros i j Hi Hj. unfold State.size in *.
  destruct i as [|[|i]]; destruct j as [|[|j]]; try lia; reflexivity.
Qed.

Lemma yaw_getPhi_det (dt : R) :
  yaw_getPhi dt 0%nat 0%nat * yaw_getPhi dt 1%nat 1%nat
  - yaw_getPhi dt 1%nat 0%nat * yaw_getPhi dt 0%nat 1%nat = 1.
Proof. simpl. ring. Qed.

Lemma yaw_getPhi_inv_l (dt : R) :
  meq State.size State.size
    (mmul State.size (inv2 (yaw_getPhi dt)) (yaw_getPhi dt)) identity.
Proof.
  intros i j Hi Hj. unfold State.size in *.
  destruct i as [|[|i]]; destruct j as [|[|j]]; try lia;
    unfold mmul, inv2, identity; simpl; field.
Qed.

Lemma yaw_getPhi_inv_r (dt : R) :
  meq State.size State.size
    (mmul State.size (yaw_getPhi dt) (inv2 (yaw_getPhi dt))) identity.
Proof.
  intros i j Hi Hj. unfold State.size in *.
  destruct i as [|[|i]]; destruct j as [|[|j]]; try lia;
    unfold mmul, inv2, identity; simpl; field.
Qed.

(** The state after [predictState]: yaw advanced by [yaw_rate * dt], and
    both components rewrapped. *)
Lemma yaw_predictState (dt : R) (f : t) :
  _state (predictState State.size yaw_getPhi dt f) State.yaw 0%nat
  = wrap_pi (_state f State.yaw 0%nat + dt * _state f State.yaw_rate 0%nat)
  /\ _state (predictState State.size yaw_getPhi dt f) State.yaw_rate 0%nat
     = wrap_pi (_state f State.yaw_rate 0%nat).
Proof.
  unfold State.yaw, State.yaw_rate.
  change (_state (predictState State.size yaw_getPhi dt f))
    with (wrap_components State.size
            (mmul State.size (yaw_getPhi dt) (_state f))).
  rewrite !wrap_components_below by (unfold State.size; lia).
  unfold mmul. simpl. split; f_equal; ring.
Qed.

(** The synced state after [syncState]. *)
Lemma yaw_syncState (dt : R) (f : t) :
  _sync_state (syncState State.size yaw_getPhi inv2 dt f) State.yaw 0%nat
  = wrap_pi (_state f State.yaw 0%nat - dt * _state f State.yaw_rate 0%nat)
  /\ _sync_state (syncState State.size yaw_getPhi inv2 dt f)
       State.yaw_rate 0%nat
     = wrap_pi (_state f State.yaw_rate 0%nat).
Proof.
  unfold State.yaw, State.yaw_rate.
  change (_sync_state (syncState State.size yaw_getPhi inv2 dt f))
    with (wrap_components State.size
            (mmul State.size (inv2 (yaw_getPhi dt)) (_state f))).
  rewrite !wrap_components_below by (unfold State.size; lia).
  unfold mmul, inv2. simpl. split; f_equal; field.
Qed.

(** Prediction followed by resynchronization, for any state. *)
Lemma yaw_round_trip (dt : R) (f : t) :
  let g := syncState State.size yaw_getPhi inv2 dt
             (predictState State.size yaw_getPhi dt f) in
  _sync_state g State.yaw 0%nat
  = wrap_pi (wrap_pi (_state f State.yaw 0%nat
                      + dt * _state f State.yaw_rate 0%nat)
             - dt * wrap_pi (_state f State.yaw_rate 0%nat))
  /\ _sync_state g State.yaw_rate 0%nat
     = wrap_pi (_state f State.yaw_rate 0%nat).
Proof.
  intros g. unfold g.
  destruct (yaw_syncState dt (predictState State.size yaw_getPhi dt f))
    as [Hy Hr].
  destruct (yaw_predictState dt f) as [Hy' Hr'].
  rewrite Hy, Hr, Hy', Hr'. rewrite wrap_pi_idempotent. split; reflexivity.
Qed.

(** C5 (as amended).  For every [dt >= 0], the transition matrix
    [phi(dt)] is invertible, [phi(0)] is the identity, and for every filter
    whose yaw-rate component lies in [(-pi, pi]] - as it does after any
    prediction or accepted update - [syncState dt] after [predictState dt]
    yields a synced state equal to the pre-prediction state up to the
    wrapping of the yaw: the synced yaw is the wrapped yaw and the synced
    yaw rate is the yaw rate. *)
Theorem resynchronize_undoes_prediction (dt : R) (f : t) :
  0 <= dt ->
  - PI < _state f State.yaw_rate 0%nat <= PI ->
  meq State.size State.size (yaw_getPhi 0) identity
  /\ meq State.size State.size
       (mmul State.size (inv2 (yaw_getPhi dt)) (yaw_getPhi dt)) identity
  /\ meq State.size State.size
       (mmul State.size (yaw_getPhi dt) (inv2 (yaw_getPhi dt))) identity
  /\ _sync_state
       (syncState State.size yaw_getPhi inv2 dt
          (predictState State.size yaw_getPhi dt f)) State.yaw 0%nat
     = wrap_pi (_state f State.yaw 0%nat)
  /\ same_angle
       (_sync_state
          (syncState State.size yaw_getPhi inv2 dt
             (predictState State.size yaw_getPhi dt f)) State.yaw 0%nat)
       (_state f State.yaw 0%nat)
  /\ _sync_state
       (syncState State.size yaw_getPhi inv2 dt
          (predictState State.size yaw_getPhi dt f)) State.yaw_rate 0%nat
     = _state f State.yaw_rate 0%nat.
Proof.
  intros _ Hrate.
  destruct (yaw_round_trip dt f) as [Hy Hr].
  rewrite (wrap_pi_fixed _ Hrate) in Hy, Hr.
  assert (Hyaw :
    wrap_pi (wrap_pi (_state f State.yaw 0%nat
                      + dt * _state f State.yaw_rate 0%nat)
             - dt * _state f State.yaw_rate 0%nat)
    = wrap_pi (_state f State.yaw 0%nat)).
  { destruct (wrap_pi_same_angle
                (_state f State.yaw 0%nat
                 + dt * _state f State.yaw_rate 0%nat)) as [m Hm].
    rewrite Hm.
    replace (_state f State.yaw 0%nat + dt * _state f State.yaw_rate 0%nat
             + 2 * PI * IZR m - dt * _state f State.yaw_rate 0%nat)
      with (_state f State.yaw 0%nat + 2 * PI * IZR m) by ring.
    apply wrap_pi_shift. }
  repeat apply conj.
  - apply yaw_getPhi_zero.
  - apply yaw_getPhi_inv_l.
  - apply yaw_getPhi_inv_r.
  - rewrite Hy. exact Hyaw.
  - rewrite Hy, Hyaw. apply wrap_pi_same_angle.
  - exact Hr.
Qed.

End YawFilter.

(** ** The filter on concrete inputs *)

Section FilterExamples.
Import matrix KF_orientation_unified.

Lemma identity_symmetric (n : nat) : symmetric n identity.
Proof.
  apply symmetric_entries. intros i j _ _. unfold identity.
  rewrite (Nat.eqb_sym i j). reflexivity.
Qed.

Lemma innov_cov_min_pos : 0 < innov_cov_min.
Proof. unfold innov_cov_min. lra. Qed.

(** A zero innovation covariance trips the guard; an innovation of 10
    against [S = 1] and threshold 9 trips the gate. *)
Lemma update_rejection_examples :
  update State.size (yaw_filter 0 0 1 0 9) = (false, yaw_filter 0 0 1 0 9)
  /\ update State.size (yaw_filter 0 0 10 1 9)
     = (false, yaw_filter 0 0 10 1 9).
Proof.
  split.
  - apply update_rejection_leaves_filter. left. simpl.
    rewrite Rabs_R0. exact innov_cov_min_pos.
  - apply update_rejection_leaves_filter. right. unfold nis. simpl. lra.
Defined.

(** An innovation of 1 against [S = 2]: accepted, yaw moves by [1/2]. *)
Lemma update_accepted_example :
  fst (update State.size (yaw_filter 0 0 1 2 9)) = true
  /\ _state (snd (update State.size (yaw_filter 0 0 1 2 9))) State.yaw 0%nat
     = wrap_pi (0 + kalman_gain State.size (yaw_filter 0 0 1 2 9) State.yaw * 1).
Proof.
  assert (HS : Rabs (_innov_cov (yaw_filter 0 0 1 2 9)) >= innov_cov_min).
  { simpl. rewrite Rabs_right by lra. unfold innov_cov_min. lra. }
  assert (Hb : nis (yaw_filter 0 0 1 2 9) <= _nis_threshold (yaw_filter 0 0 1 2 9)).
  { unfold nis. simpl. lra. }
  pose proof (update_applies_kalman_correction State.size
                (yaw_filter 0 0 1 2 9) HS Hb) as H.
  split.
  - exact (proj1 H).
  - apply (proj1 (proj2 H)). unfold State.yaw, State.size. lia.
Defined.

Lemma symmetry_example :
  symmetric State.size
    (_state_covariance
       (run State.size yaw_getPhi inv2
          [PredictCov 1; Update; PredictCov (1 / 2)]
          (yaw_filter 0 0 1 2 9))).
Proof.
  apply covariance_stays_symmetric. simpl. apply identity_symmetric.
Defined.

Lemma negative_innov_cov_example :
  fst (update State.size (yaw_filter 0 0 1 (-1) 9)) = true.
Proof.
  refine (proj1 (proj2 (update_accepts_negative_innov_cov State.size
                          (yaw_filter 0 0 1 (-1) 9) _ _ _))); simpl.
  - lra.
  - lra.
  - rewrite Rabs_left by lra. unfold innov_cov_min. lra.
Defined.

Lemma components_wrapped_example :
  - PI < _state (predictState State.size yaw_getPhi 1 (yaw_filter 3 2 0 1 9))
           State.yaw 0%nat <= PI.
Proof.
  refine (proj1 (components_wrapped State.size yaw_getPhi inv2 1
                   (yaw_filter 3 2 0 1 9) State.yaw _)).
  unfold State.yaw, State.size. lia.
Defined.

Lemma one_in_range : - PI < 1 <= PI.
Proof. pose proof PI2_1. lra. Qed.

Lemma round_trip_example :
  _sync_state
    (syncState State.size yaw_getPhi inv2 (1 / 2)
       (predictState State.size yaw_getPhi (1 / 2) (yaw_filter 3 1 0 1 9)))
    State.yaw 0%nat
  = wrap_pi 3.
Proof.
  refine (proj1 (proj2 (proj2 (proj2
            (resynchronize_undoes_prediction (1 / 2) (yaw_filter 3 1 0 1 9)
               _ _))))).
  - lra.
  - simpl. exact one_in_range.
Defined.

Lemma wrap_pi_two_pi : wrap_pi (2 * PI) = 0.
Proof.
  apply wrap_pi_unique with (k := 1%Z).
  - pose proof PI_RGT_0. lra.
  - ring.
Qed.

Lemma wrap_pi_pi : wrap_pi PI = PI.
Proof. apply wrap_pi_fixed. pose proof PI_RGT_0. lra. Qed.

Lemma not_same_angle_half_turn : ~ same_angle PI 0.
Proof.
  intros [k Hk].
  assert (H2 : IZR (2 * k) = IZR 1).
  { rewrite mult_IZR. pose proof PI_RGT_0 as Hpi.
    apply Rmult_eq_reg_l with PI; [|lra]. lra. }
  apply eq_IZR in H2. lia.
Qed.

(** C5 fails as stated.  A yaw rate of a full turn per second is rewrapped
    to zero by [predictState]; resynchronizing over the same half second
    gives the synced yaw [pi], half a turn away from the yaw [0] the filter
    started from. *)
Lemma round_trip_fails_for_unwrapped_rate :
  0 <= 1 / 2
  /\ _sync_state
       (syncState State.size yaw_getPhi inv2 (1 / 2)
          (predictState State.size yaw_getPhi (1 / 2)
             (yaw_filter 0 (2 * PI) 0 1 9)))
       State.yaw 0%nat = PI
  /\ ~ same_angle
         (_sync_state
            (syncState State.size yaw_getPhi inv2 (1 / 2)
               (predictState State.size yaw_getPhi (1 / 2)
                  (yaw_filter 0 (2 * PI) 0 1 9)))
            State.yaw 0%nat)
         (_state (yaw_filter 0 (2 * PI) 0 1 9) State.yaw 0%nat).
Proof.
  assert (Hsync :
    _sync_state
      (syncState State.size yaw_getPhi inv2 (1 / 2)
         (predictState State.size yaw_getPhi (1 / 2)
            (yaw_filter 0 (2 * PI) 0 1 9)))
      State.yaw 0%nat = PI).
  { rewrite (proj1 (yaw_round_trip (1 / 2) (yaw_filter 0 (2 * PI) 0 1 9))).
    change (_state (yaw_filter 0 (2 * PI) 0 1 9) State.yaw 0%nat) with 0.
    change (_state (yaw_filter 0 (2 * PI) 0 1 9) State.yaw_rate 0%nat)
      with (2 * PI).
    rewrite wrap_pi_two_pi.
    replace (0 + 1 / 2 * (2 * PI)) with PI by field.
    rewrite wrap_pi_pi.
    replace (PI - 1 / 2 * 0) with PI by field.
    apply wrap_pi_pi. }
  split; [lra|]. split; [exact Hsync|].
  rewrite Hsync. exact not_same_angle_half_turn.
Qed.

End FilterExamples.

(** ** The position estimator *)

Section EstimatorFacts.
Import VTEPosition.
Local Open Scope Z_scope.

(** *** Masks *)

(** Testing a mask against a single flag reads one bit. *)
Lemma to_bool_land_flag (m k : Z) :
  0 <= k -> to_bool (Z.land m (Z.shiftl 1 k)) = Z.testbit m k.
Proof.
  intros Hk. rewrite Z.shiftl_1_l. unfold to_bool.
  destruct (Z.testbit m k) eqn:E.
  - destruct (Z.eqb_spec (Z.land m (2 ^ k)) 0) as [H0|]; [|reflexivity].
    assert (Hbit : Z.testbit (Z.land m (2 ^ k)) k = true).
    { rewrite Z.land_spec, E, Z.pow2_bits_eqb, Z.eqb_refl by exact Hk.
      reflexivity. }
    rewrite H0, Z.bits_0 in Hbit. discriminate.
  - replace (Z.land m (2 ^ k)) with 0; [reflexivity|].
    apply Z.bits_inj'. intros n _.
    rewrite Z.bits_0, Z.land_spec, Z.pow2_bits_eqb by exact Hk.
    destruct (Z.eqb_spec k n) as [<-|_].
    + rewrite E. reflexivity.
    + symmetry. apply andb_false_r.
Qed.

Lemma to_bool_lor (a b : Z) : to_bool (Z.lor a b) = to_bool a || to_bool b.
Proof.
  unfold to_bool.
  destruct (Z.eqb_spec a 0) as [->|Ha]; simpl.
  - rewrite ?Z.lor_0_l. reflexivity.
  - destruct (Z.eqb_spec (Z.lor a b) 0) as [H0|]; [|reflexivity].
    apply Z.lor_eq_0_iff in H0. tauto.
Qed.

(** [_hasNewPositionSensorData] tests the mission, target-GNSS and vision
    flags - and no other. *)
Lemma _hasNewPositionSensorData_bits (m : Z) :
  _hasNewPositionSensorData m
  = Z.testbit m 3 || Z.testbit m 0 || Z.testbit m 2.
Proof.
  unfold _hasNewPositionSensorData.
  rewrite !Z.land_lor_distr_r, !to_bool_lor.
  unfold FUSE_MISSION_POS, FUSE_TARGET_GPS_POS, FUSE_EXT_VIS_POS.
  rewrite !to_bool_land_flag by lia. reflexivity.
Qed.

Lemma _hasNewNonGpsPositionSensorData_bits (m : Z) :
  _hasNewNonGpsPositionSensorData m = Z.testbit m 2 || Z.testbit m 5.
Proof.
  unfold _hasNewNonGpsPositionSensorData, FUSE_EXT_VIS_POS, FUSE_UWB.
  rewrite !to_bool_land_flag by lia. reflexivity.
Qed.

(** *** Initialization *)

(** The first available position source, read off the mask bits. *)
Lemma first_available_bits (m : Z) :
  first_available m
  = if Z.testbit m 3 then Some mission_gps_pos
    else if Z.testbit m 0 then Some target_gps_pos
    else if Z.testbit m 2 then Some fiducial_marker
    else if Z.testbit m 5 then Some uwb
    else None.
Proof.
  unfold first_available, position_priority, find, flag_of,
    FUSE_MISSION_POS, FUSE_TARGET_GPS_POS, FUSE_EXT_VIS_POS, FUSE_UWB.
  rewrite !to_bool_land_flag by lia. reflexivity.
Qed.

Lemma initializeEstimator_success (m : Z)
    (obs : ObservationType -> targetObsPos) (e : t) (s : ObservationType) :
  first_available m = Some s ->
  initializeEstimator m obs e
  = (true,
     mk (_has_timed_out e) (_pos_rel_gnss e) (_bias_set e) true
        (fun d => Some (meas_xyz (obs s) d)) (bias e)
        (_last_predict e) (_last_update e) (_vte_TIMEOUT_US e)).
Proof.
  intros H. unfold initializeEstimator, getPosInit. rewrite H. reflexivity.
Qed.

Lemma initializeEstimator_failure (m : Z)
    (obs : ObservationType -> targetObsPos) (e : t) :
  first_available m = None -> initializeEstimator m obs e = (false, e).
Proof. intros H. unfold initializeEstimator. rewrite H. reflexivity. Qed.

(** C3.  Initialization of a not yet initialized estimator takes the
    initial position from the highest-priority valid position source, in
    the order mission position, target GNSS position, vision, UWB; on
    success it marks the estimator initialized and gives all three axis
    filters their position in one step; it fails exactly when none of the
    four sources - UWB included - is valid in the cycle's mask, and then
    leaves the estimator as it was.  (Bits 3, 0, 2 and 5 of the mask are
    [FUSE_MISSION_POS], [FUSE_TARGET_GPS_POS], [FUSE_EXT_VIS_POS] and
    [FUSE_UWB].) *)
Theorem initialization_by_priority (m : Z)
    (obs : ObservationType -> targetObsPos) (e : t) :
  (fst (initializeEstimator m obs e) = false
   <-> Z.testbit m 3 = false /\ Z.testbit m 0 = false
       /\ Z.testbit m 2 = false /\ Z.testbit m 5 = false)
  /\ (fst (initializeEstimator m obs e) = false ->
      snd (initializeEstimator m obs e) = e)
  /\ (fst (initializeEstimator m obs e) = true ->
      _estimator_initialized (snd (initializeEstimator m obs e)) = true
      /\ forall d,
           _target_estimator (snd (initializeEstimator m obs e)) d <> None)
  /\ (Z.testbit m 3 = true ->
      forall d, _target_estimator (snd (initializeEstimator m obs e)) d
                = Some (meas_xyz (obs mission_gps_pos) d))
  /\ (Z.testbit m 3 = false -> Z.testbit m 0 = true ->
      forall d, _target_estimator (snd (initializeEstimator m obs e)) d
                = Some (meas_xyz (obs target_gps_pos) d))
  /\ (Z.testbit m 3 = false -> Z.testbit m 0 = false ->
      Z.testbit m 2 = true ->
      forall d, _target_estimator (snd (initializeEstimator m obs e)) d
                = Some (meas_xyz (obs fiducial_marker) d))
  /\ (Z.testbit m 3 = false -> Z.testbit m 0 = false ->
      Z.testbit m 2 = false -> Z.testbit m 5 = true ->
      forall d, _target_estimator (snd (initializeEstimator m obs e)) d
                = Some (meas_xyz (obs uwb) d)).
Proof.
  pose proof (first_available_bits m) as Hfirst.
  destruct (first_available m) as [s|] eqn:E.
  - rewrite (initializeEstimator_success m obs e s E).
    cbn [fst snd _estimator_initialized _target_estimator].
    repeat apply conj.
    + discriminate.
    + intros (H3 & H0 & H2 & H5).
      rewrite H3, H0, H2, H5 in Hfirst. discriminate.
    + discriminate.
    + intros _. split; [reflexivity | discriminate].
    + intros H3 d. rewrite H3 in Hfirst. congruence.
    + intros H3 H0 d. rewrite H3, H0 in Hfirst. congruence.
    + intros H3 H0 H2 d. rewrite H3, H0, H2 in Hfirst. congruence.
    + intros H3 H0 H2 H5 d. rewrite H3, H0, H2, H5 in Hfirst. congruence.
  - rewrite (initializeEstimator_failure m obs e E). cbn [fst snd].
    destruct (Z.testbit m 3), (Z.testbit m 0), (Z.testbit m 2),
      (Z.testbit m 5); try discriminate.
    repeat apply conj; try discriminate; auto.
Qed.

(** *** Bias *)









(** *** Timeout *)

Lemma has_timed_out_check_timeout (now : Z) (e : t) :
  has_timed_out (check_timeout now e)
  = has_timed_out e || (elapsed_since_update now e >? _vte_TIMEOUT_US e).
Proof.
  unfold check_timeout, has_timed_out.
  destruct (elapsed_since_update now e >? _vte_TIMEOUT_US e); simpl.
  - rewrite orb_true_r. reflexivity.
  - rewrite orb_false_r. reflexivity.
Qed.

(** The first step of a cycle touches neither the flag nor the timeout
    bookkeeping. *)
Lemma first_step_timeout_members (i : cycle_input) (e : t) :
  let e1 := if _estimator_initialized e
            then bias_step (now i) (mask i) (observations i) e
            else snd (initializeEstimator (mask i) (observations i) e) in
  _has_timed_out e1 = _has_timed_out e
  /\ _last_update e1 = _last_update e
  /\ _vte_TIMEOUT_US e1 = _vte_TIMEOUT_US e.
Proof.
  unfold bias_step, initializeEstimator.
  destruct (_estimator_initialized e),
    (_should_set_bias (now i) e (mask i)), (first_available (mask i));
    repeat split; reflexivity.
Qed.

Lemma cycle_timeout_members (i : cycle_input) (e : t) :
  has_timed_out (cycle i e)
  = has_timed_out e
    || (uint64 (now i - (if fused i then now i else _last_update e))
        >? _vte_TIMEOUT_US e)
  /\ _last_update (cycle i e)
     = (if fused i then now i else _last_update e)
  /\ _vte_TIMEOUT_US (cycle i e) = _vte_TIMEOUT_US e.
Proof.
  destruct (first_step_timeout_members i e) as (Hflag & Hlast & Hhorizon).
  unfold cycle.
  set (e1 := if _estimator_initialized e
             then bias_step (now i) (mask i) (observations i) e
             else snd (initializeEstimator (mask i) (observations i) e)) in *.
  rewrite has_timed_out_check_timeout.
  unfold check_timeout, elapsed_since_update, has_timed_out.
  destruct (fused i); simpl; rewrite ?Hflag, ?Hlast, ?Hhorizon;
    match goal with
    | |- context [if ?c then _ else _] => destruct c
    end; repeat split; simpl; rewrite ?Hlast, ?Hhorizon; reflexivity.
Qed.

Lemma has_timed_out_cycles_sticky (inputs : list cycle_input) (e : t) :
  has_timed_out e = true -> has_timed_out (cycles inputs e) = true.
Proof.
  unfold cycles. induction inputs as [|i inputs IH] in e |- *; intros H.
  - exact H.
  - simpl. apply IH.
    rewrite (proj1 (cycle_timeout_members i e)), H. reflexivity.
Qed.

(** C8.  A cycle raises the timeout flag exactly when, at its timeout
    check, the time elapsed since the last successful update - this
    cycle's own, when a fusion succeeded in it - exceeds the configured
    horizon; [_last_update] moves only in a cycle with a successful fusion
    and the horizon never moves.  Once raised, the flag is reported by
    [has_timed_out] after every further sequence of cycles, whatever they
    are given; [resetFilter] clears it.  A freshly constructed estimator is
    not timed out and has a horizon of three seconds. *)
Theorem timed_out_until_reset :
  has_timed_out init = false
  /\ _vte_TIMEOUT_US init = 3000000
  /\ (forall i e,
        has_timed_out (cycle i e)
        = has_timed_out e
          || (uint64 (now i - (if fused i then now i else _last_update e))
              >? _vte_TIMEOUT_US e))
  /\ (forall i e,
        has_timed_out e = false ->
        (has_timed_out (cycle i e) = true
         <-> uint64 (now i - _last_update (cycle i e))
             > _vte_TIMEOUT_US (cycle i e)))
  /\ (forall i e,
        _last_update (cycle i e)
        = (if fused i then now i else _last_update e)
        /\ _vte_TIMEOUT_US (cycle i e) = _vte_TIMEOUT_US e)
  /\ (forall inputs e,
        has_timed_out e = true -> has_timed_out (cycles inputs e) = true)
  /\ (forall e, has_timed_out (resetFilter e) = false).
Proof.
  split; [reflexivity|]. split; [reflexivity|].
  split; [|split; [|split; [|split]]].
  - intros i e. apply cycle_timeout_members.
  - intros i e Hclear.
    destruct (cycle_timeout_members i e) as (Hflag & Hlast & Hhorizon).
    rewrite Hflag, Hlast, Hhorizon, Hclear. simpl.
    rewrite Z.gtb_gt. reflexivity.
  - intros i e. apply cycle_timeout_members.
  - exact has_timed_out_cycles_sticky.
  - reflexivity.
Qed.

(** *** The estimator on concrete inputs *)

(** Vision reports 1 and UWB reports 2.  With both flagged the estimator
    starts from the vision position; with UWB alone it starts from the UWB
    position; with no position flag it stays as constructed. *)
Lemma initialization_example :
  _target_estimator
    (snd (initializeEstimator (Z.lor FUSE_EXT_VIS_POS FUSE_UWB)
            (reporting (fun s => match s with
                                 | fiducial_marker => 1%R
                                 | uwb => 2%R
                                 | _ => 0%R
                                 end)) init)) x = Some 1%R
  /\ _target_estimator
       (snd (initializeEstimator FUSE_UWB
               (reporting (fun s => match s with
                                    | fiducial_marker => 1%R
                                    | uwb => 2%R
                                    | _ => 0%R
                                    end)) init)) x = Some 2%R
  /\ snd (initializeEstimator FUSE_UAV_GPS_VEL
            (reporting (fun _ => 0%R)) init) = init.
Proof.
  split; [|split].
  - refine (proj1 (proj2 (proj2 (proj2 (proj2 (proj2
              (initialization_by_priority (Z.lor FUSE_EXT_VIS_POS FUSE_UWB)
                 (reporting _) init)))))) _ _ _ x); reflexivity.
  - refine (proj2 (proj2 (proj2 (proj2 (proj2 (proj2
              (initialization_by_priority FUSE_UWB (reporting _) init))))))
              _ _ _ _ x); reflexivity.
  - refine (proj1 (proj2
              (initialization_by_priority FUSE_UAV_GPS_VEL (reporting _)
                 init)) _).
    reflexivity.
Defined.



(** Five seconds without an update raise the flag and two seconds do not;
    once raised, the flag stays through a later cycle with a successful
    fusion. *)
Lemma timed_out_example :
  has_timed_out
    (cycle {| now := 5000000; mask := NO_VALID_DATA;
              observations := reporting (fun _ => 0%R); fused := false |}
       init) = true
  /\ has_timed_out
       (cycle {| now := 2000000; mask := NO_VALID_DATA;
                 observations := reporting (fun _ => 0%R); fused := false |}
          init) = false
  /\ has_timed_out
       (cycles [ {| now := 5200000; mask := FUSE_MISSION_POS;
                    observations := reporting (fun _ => 1%R);
                    fused := true |} ]
          (cycle {| now := 5000000; mask := NO_VALID_DATA;
                    observations := reporting (fun _ => 0%R);
                    fused := false |}
             init)) = true.
Proof.
  assert (Hraised :
    has_timed_out
      (cycle {| now := 5000000; mask := NO_VALID_DATA;
                observations := reporting (fun _ => 0%R); fused := false |}
         init) = true).
  { rewrite (proj1 (proj2 (proj2 timed_out_until_reset))). reflexivity. }
  split; [exact Hraised|]. split.
  - rewrite (proj1 (proj2 (proj2 timed_out_until_reset))). reflexivity.
  - apply (proj1 (proj2 (proj2 (proj2 (proj2 (proj2
             timed_out_until_reset)))))).
    exact Hraised.
Defined.

End EstimatorFacts.

(** ** Quadratic forms *)

Section QuadraticForms.
Import matrix.

Variable n : nat.

Lemma sum_upto_minus (f g : nat -> R) :
  sum_upto n (fun k => f k - g k) = sum_upto n f - sum_upto n g.
Proof. induction n as [|m IH]; simpl; [ring | rewrite IH; ring]. Qed.

Lemma bilin_sum (a x y : Matrix) :
  bilin n a x y
  = sum_upto n (fun k =>
      sum_upto n (fun l => x l 0%nat * a l k) * y k 0%nat).
Proof. reflexivity. Qed.

Lemma bilin_sum_alt (a x y : Matrix) :
  bilin n a x y
  = sum_upto n (fun l =>
      x l 0%nat * sum_upto n (fun k => a l k * y k 0%nat)).
Proof.
  rewrite bilin_sum.
  rewrite (sum_upto_ext n _
             (fun k => sum_upto n (fun l => x l 0%nat * a l k * y k 0%nat)))
    by (intros k _; rewrite <- sum_upto_scale_r; reflexivity).
  rewrite sum_upto_swap.
  apply sum_upto_ext. intros l _.
  rewrite <- sum_upto_scale_l.
  apply sum_upto_ext. intros k _. ring.
Qed.

Lemma bilin_ext (a b x y : Matrix) :
  meq n n a b -> bilin n a x y = bilin n b x y.
Proof.
  intros H. rewrite !bilin_sum.
  apply sum_upto_ext. intros k Hk. f_equal.
  apply sum_upto_ext. intros l Hl. rewrite (H l k Hl Hk). reflexivity.
Qed.

Lemma bilin_symmetric (a x y : Matrix) :
  symmetric n a -> bilin n a x y = bilin n a y x.
Proof.
  intros Ha. rewrite (bilin_sum_alt a y x), bilin_sum.
  apply sum_upto_ext. intros k Hk.
  rewrite Rmult_comm. f_equal.
  apply sum_upto_ext. intros l Hl.
  rewrite (symmetric_swap _ _ Ha l k Hl Hk). ring.
Qed.

Lemma bilin_madd_l (a x y z : Matrix) :
  bilin n a (madd x y) z = bilin n a x z + bilin n a y z.
Proof.
  rewrite !bilin_sum, <- sum_upto_plus.
  apply sum_upto_ext. intros k _.
  rewrite <- Rmult_plus_distr_r. f_equal.
  rewrite <- sum_upto_plus.
  apply sum_upto_ext. intros l _. unfold madd. ring.
Qed.

Lemma bilin_mscale_l (a x z : Matrix) (c : R) :
  bilin n a (mscale x c) z = c * bilin n a x z.
Proof.
  rewrite !bilin_sum, <- sum_upto_scale_l.
  apply sum_upto_ext. intros k _.
  rewrite <- Rmult_assoc. f_equal.
  rewrite <- sum_upto_scale_l.
  apply sum_upto_ext. intros l _. unfold mscale. ring.
Qed.

Lemma bilin_madd_r (a x y z : Matrix) :
  bilin n a x (madd y z) = bilin n a x y + bilin n a x z.
Proof.
  rewrite !bilin_sum, <- sum_upto_plus.
  apply sum_upto_ext. intros k _. unfold madd. ring.
Qed.

Lemma bilin_mscale_r (a x y : Matrix) (c : R) :
  bilin n a x (mscale y c) = c * bilin n a x y.
Proof.
  rewrite !bilin_sum, <- sum_upto_scale_l.
  apply sum_upto_ext. intros k _. unfold mscale. ring.
Qed.

(** The variance along [x + c * h]. *)
Lemma quad_along_line (a x h : Matrix) (c : R) :
  quad n a (madd x (mscale h c))
  = quad n a x + c * (bilin n a x h + bilin n a h x) + c * c * quad n a h.
Proof.
  unfold quad.
  rewrite bilin_madd_l, !bilin_madd_r, !bilin_mscale_l, !bilin_mscale_r.
  ring.
Qed.

(** Cauchy-Schwarz for a symmetric positive semi-definite form. *)
Lemma psd_cauchy_schwarz (a x h : Matrix) :
  symmetric n a -> psd n a ->
  bilin n a x h * bilin n a x h <= quad n a x * quad n a h.
Proof.
  intros Hs Hp.
  assert (Hline : forall c,
    0 <= quad n a x + 2 * c * bilin n a x h + c * c * quad n a h).
  { intros c. pose proof (Hp (madd x (mscale h c))) as H.
    rewrite quad_along_line, (bilin_symmetric a h x Hs) in H. lra. }
  pose proof (Hp x) as Hx. pose proof (Hp h) as Hh.
  set (A := quad n a x) in *. set (C := quad n a h) in *.
  set (B := bilin n a x h) in *.
  destruct (Req_dec C 0) as [HC0 | HC].
  - assert (HB : B = 0).
    { destruct (Req_dec B 0) as [|HB]; [assumption|exfalso].
      pose proof (Hline (- (A + 1) / (2 * B))) as H.
      rewrite HC0 in H.
      replace (A + 2 * (- (A + 1) / (2 * B)) * B + _ * 0) with (-1) in H
        by (field; exact HB).
      lra. }
    rewrite HB, HC0. lra.
  - assert (HCpos : 0 < C) by lra.
    pose proof (Hline (- B / C)) as H.
    replace (A + 2 * (- B / C) * B + - B / C * (- B / C) * C)
      with ((A * C - B * B) / C) in H by (field; exact HC).
    apply Rmult_le_compat_r with (r := C) in H; [|lra].
    replace ((A * C - B * B) / C * C) with (A * C - B * B) in H
      by (field; exact HC).
    lra.
Qed.

(** The variance along [x] under a sandwich is the variance along
    [phi^T * x]. *)
Lemma quad_sandwich (phi p x : Matrix) :
  quad n (mmul n (mmul n phi p) (transpose phi)) x
  = quad n p (mmul n (transpose phi) x).
Proof.
  unfold quad, bilin.
  rewrite (transpose_mmul n (transpose phi) x).
  change (transpose (transpose phi)) with phi.
  rewrite !mmul_assoc. reflexivity.
Qed.

(** The variance along [x] after subtracting the rank-one term
    [u * v^T]. *)
Lemma quad_rank_one (p : Matrix) (u v : nat -> R) (x : Matrix) :
  quad n (fun l k => p l k - u l * v k) x
  = quad n p x
    - sum_upto n (fun l => x l 0%nat * u l)
      * sum_upto n (fun k => v k * x k 0%nat).
Proof.
  unfold quad. rewrite !bilin_sum.
  rewrite <- (sum_upto_scale_l n _ (fun k => v k * x k 0%nat)).
  rewrite <- sum_upto_minus.
  apply sum_upto_ext. intros k _.
  rewrite (sum_upto_ext n _
             (fun l => x l 0%nat * p l k - x l 0%nat * u l * v k))
    by (intros l _; ring).
  rewrite sum_upto_minus, sum_upto_scale_r. ring.
Qed.

End QuadraticForms.

(** ** The orientation filter: further properties *)

Section FilterCovariance.
Import matrix KF_orientation_unified.

Variable size : nat.
Variable getPhi : R -> Matrix.
Variable inv : Matrix -> Matrix.

(** The innovation covariance [computeInnovCov] stores. *)
Lemma computeInnovCov_value (meas_unc : R) (f : t) :
  fst (computeInnovCov size meas_unc f)
  = quad size (_state_covariance f) (_meas_matrix_row_vect f) + meas_unc
  /\ _innov_cov (snd (computeInnovCov size meas_unc f))
     = quad size (_state_covariance f) (_meas_matrix_row_vect f) + meas_unc.
Proof. split; reflexivity. Qed.

(** The covariance an accepted [update] leaves, as one matrix. *)
Lemma update_accept_covariance (f : t) :
  Rabs (_innov_cov f) >= innov_cov_min ->
  nis f <= _nis_threshold f ->
  _state_covariance (snd (update size f))
  = fun l k => _state_covariance f l k
               - kalman_gain size f l * row_times_cov size f k.
Proof.
  intros HS Hb. rewrite (update_accept size f HS Hb). simpl.
  extensionality l. extensionality k.
  unfold msub. rewrite gain_row_cov_entry. reflexivity.
Qed.

(** The variance an accepted [update] leaves along any direction [x]. *)
Lemma update_accept_quad (f : t) (x : Matrix) :
  Rabs (_innov_cov f) >= innov_cov_min ->
  nis f <= _nis_threshold f ->
  quad size (_state_covariance (snd (update size f))) x
  = quad size (_state_covariance f) x
    - bilin size (_state_covariance f) x (_meas_matrix_row_vect f)
      * bilin size (_state_covariance f) (_meas_matrix_row_vect f) x
      / _innov_cov f.
Proof.
  intros HS Hb.
  rewrite (update_accept_covariance f HS Hb), quad_rank_one.
  rewrite (bilin_sum_alt size (_state_covariance f) x),
          (bilin_sum size (_state_covariance f) (_meas_matrix_row_vect f) x).
  unfold kalman_gain, cov_times_row, row_times_cov, Rdiv.
  rewrite (sum_upto_ext size
             (fun l => x l 0%nat
                * (sum_upto size (fun j =>
                     _state_covariance f l j * _meas_matrix_row_vect f j 0%nat)
                   * / _innov_cov f))
             (fun l => x l 0%nat
                * sum_upto size (fun j =>
                    _state_covariance f l j * _meas_matrix_row_vect f j 0%nat)
                * / _innov_cov f))
    by (intros l _; ring).
  rewrite sum_upto_scale_r. ring.
Qed.

Lemma guard_positive (s q : R) :
  0 <= q -> q <= s -> Rabs s >= innov_cov_min -> 0 < s.
Proof.
  intros Hq Hs Habs. pose proof innov_cov_min_pos.
  rewrite Rabs_right in Habs by lra. lra.
Qed.

(** Positive semi-definiteness survives [update] whenever the stored
    innovation covariance is at least the variance along the measurement
    row. *)
Lemma update_psd (f : t) :
  symmetric size (_state_covariance f) ->
  psd size (_state_covariance f) ->
  quad size (_state_covariance f) (_meas_matrix_row_vect f) <= _innov_cov f ->
  psd size (_state_covariance (snd (update size f))).
Proof.
  intros Hs Hp HS.
  destruct (Rlt_dec (Rabs (_innov_cov f)) innov_cov_min) as [Hlt|Hge].
  { rewrite update_guard by exact Hlt. exact Hp. }
  destruct (Rgt_dec (nis f) (_nis_threshold f)) as [Hgt|Hle].
  { rewrite update_gate by exact Hgt. exact Hp. }
  intros x. rewrite update_accept_quad by lra.
  rewrite (bilin_symmetric size _ (_meas_matrix_row_vect f) x Hs).
  pose proof (psd_cauchy_schwarz size _ x (_meas_matrix_row_vect f) Hs Hp)
    as Hcs.
  pose proof (Hp x) as Hx. pose proof (Hp (_meas_matrix_row_vect f)) as Hh.
  assert (Hpos : 0 < _innov_cov f)
    by (apply (guard_positive _ _ Hh HS); lra).
  set (A := quad size (_state_covariance f) x) in *.
  set (C := quad size (_state_covariance f) (_meas_matrix_row_vect f)) in *.
  set (B := bilin size (_state_covariance f) x (_meas_matrix_row_vect f)) in *.
  set (S := _innov_cov f) in *.
  replace (A - B * B / S) with ((A * S - B * B) / S) by (field; lra).
  apply Rmult_le_reg_r with S; [exact Hpos|].
  replace ((A * S - B * B) / S * S) with (A * S - B * B) by (field; lra).
  nra.
Qed.

End FilterCovariance.

Section FilterExtras.
Import matrix KF_orientation_unified.

Variable size : nat.
Variable getPhi : R -> Matrix.
Variable inv : Matrix -> Matrix.

(** *** Prediction and resynchronization of the state *)

(** X1.  [predictState dt] replaces each of the [State::size] state
    components by the wrapped component of [phi(dt) * state]; it leaves the
    covariance, the synced state, the measurement row, the stored innovation,
    the stored innovation covariance and the threshold as they were. *)
Theorem predictState_propagates_and_wraps (dt : R) (f : t) :
  (forall i, (i < size)%nat ->
     _state (predictState size getPhi dt f) i 0%nat
     = wrap_pi (sum_upto size (fun k => getPhi dt i k * _state f k 0%nat)))
  /\ _state_covariance (predictState size getPhi dt f) = _state_covariance f
  /\ _sync_state (predictState size getPhi dt f) = _sync_state f
  /\ _meas_matrix_row_vect (predictState size getPhi dt f)
     = _meas_matrix_row_vect f
  /\ _innov (predictState size getPhi dt f) = _innov f
  /\ _innov_cov (predictState size getPhi dt f) = _innov_cov f
  /\ _nis_threshold (predictState size getPhi dt f) = _nis_threshold f.
Proof.
  repeat split.
  intros i Hi.
  change (_state (predictState size getPhi dt f))
    with (wrap_components size (mmul size (getPhi dt) (_state f))).
  rewrite wrap_components_below by exact Hi. reflexivity.
Qed.

(** X2.  [syncState dt] writes the wrapped components of
    [inv(phi(dt)) * state] into the synced state and nothing else: the
    state the filter predicts from, and the covariance, are not touched. *)
Theorem syncState_leaves_state (dt : R) (f : t) :
  (forall i, (i < size)%nat ->
     _sync_state (syncState size getPhi inv dt f) i 0%nat
     = wrap_pi (sum_upto size (fun k =>
                  inv (getPhi dt) i k * _state f k 0%nat)))
  /\ _state (syncState size getPhi inv dt f) = _state f
  /\ _state_covariance (syncState size getPhi inv dt f) = _state_covariance f
  /\ _meas_matrix_row_vect (syncState size getPhi inv dt f)
     = _meas_matrix_row_vect f
  /\ _innov (syncState size getPhi inv dt f) = _innov f
  /\ _innov_cov (syncState size getPhi inv dt f) = _innov_cov f
  /\ _nis_threshold (syncState size getPhi inv dt f) = _nis_threshold f.
Proof.
  repeat split.
  intros i Hi.
  change (_sync_state (syncState size getPhi inv dt f))
    with (wrap_components size (mmul size (inv (getPhi dt)) (_state f))).
  rewrite wrap_components_below by exact Hi. reflexivity.
Qed.

(** *** Innovation covariance, then update *)

(** X3.  When the variance along the measurement row is not negative and
    the measurement uncertainty is at least [1e-6], the innovation
    covariance [computeInnovCov] stores is at least that uncertainty, so the
    zero-division guard of the following [update] never fires: the update
    is rejected exactly when the gate value exceeds the threshold. *)
Theorem fresh_innov_cov_passes_guard (meas_unc meas : R) (f : t) :
  0 <= quad size (_state_covariance f) (_meas_matrix_row_vect f) ->
  innov_cov_min <= meas_unc ->
  meas_unc
  <= _innov_cov (snd (computeInnov size meas
                        (snd (computeInnovCov size meas_unc f))))
  /\ (fst (update size
             (snd (computeInnov size meas
                     (snd (computeInnovCov size meas_unc f))))) = false
      <-> nis (snd (computeInnov size meas
                      (snd (computeInnovCov size meas_unc f))))
          > _nis_threshold f).
Proof.
  intros Hq Hr.
  set (g := snd (computeInnov size meas
                   (snd (computeInnovCov size meas_unc f)))).
  assert (HS : _innov_cov g
               = quad size (_state_covariance f) (_meas_matrix_row_vect f)
                 + meas_unc) by reflexivity.
  assert (Hthr : _nis_threshold g = _nis_threshold f) by reflexivity.
  pose proof innov_cov_min_pos as Hmin.
  split; [lra|]. rewrite <- Hthr. split.
  - intros Hrej.
    destruct (Rgt_dec (nis g) (_nis_threshold g)) as [Hgt|Hle];
      [exact Hgt | exfalso].
    assert (Hacc : fst (update size g) = true).
    { apply (update_applies_kalman_correction_aux size g).
      - rewrite HS, Rabs_right by lra. lra.
      - lra. }
    rewrite Hacc in Hrej. discriminate.
  - intros Hgt. rewrite (update_gate size g Hgt). reflexivity.
Qed.

(** X4.  After [computeInnovCov] with uncertainty [r] and an accepted
    [update], the variance along the measurement row is [q * r / (q + r)],
    [q] being the variance before; with [q >= 0] and [r >= 0] it is not
    negative and exceeds neither [q] nor [r]. *)
Theorem update_shrinks_variance_along_row (meas_unc meas : R) (f : t) :
  fst (update size
         (snd (computeInnov size meas
                 (snd (computeInnovCov size meas_unc f))))) = true ->
  quad size
    (_state_covariance
       (snd (update size
               (snd (computeInnov size meas
                       (snd (computeInnovCov size meas_unc f)))))))
    (_meas_matrix_row_vect f)
  = quad size (_state_covariance f) (_meas_matrix_row_vect f) * meas_unc
    / (quad size (_state_covariance f) (_meas_matrix_row_vect f) + meas_unc)
  /\ (0 <= quad size (_state_covariance f) (_meas_matrix_row_vect f) ->
      0 <= meas_unc ->
      0 <= quad size (_state_covariance f) (_meas_matrix_row_vect f)
           * meas_unc
           / (quad size (_state_covariance f) (_meas_matrix_row_vect f)
              + meas_unc)
        <= quad size (_state_covariance f) (_meas_matrix_row_vect f)
      /\ quad size (_state_covariance f) (_meas_matrix_row_vect f)
         * meas_unc
         / (quad size (_state_covariance f) (_meas_matrix_row_vect f)
            + meas_unc)
         <= meas_unc).
Proof.
  intros Hacc.
  set (g := snd (computeInnov size meas
                   (snd (computeInnovCov size meas_unc f)))) in *.
  set (q := quad size (_state_covariance f) (_meas_matrix_row_vect f)).
  assert (HS : _innov_cov g = q + meas_unc) by reflexivity.
  destruct (update_accepted_inv size g Hacc) as [Habs Hnis].
  assert (Hne : q + meas_unc <> 0).
  { intros H0. rewrite HS, H0, Rabs_R0 in Habs.
    pose proof innov_cov_min_pos. lra. }
  split.
  - rewrite (update_accept_quad size g _ Habs Hnis), HS.
    change (quad size (_state_covariance g) (_meas_matrix_row_vect f))
      with q.
    change (bilin size (_state_covariance g) (_meas_matrix_row_vect f)
              (_meas_matrix_row_vect g)) with q.
    change (bilin size (_state_covariance g) (_meas_matrix_row_vect g)
              (_meas_matrix_row_vect f)) with q.
    field. exact Hne.
  - intros Hq Hr.
    assert (Hpos : 0 < q + meas_unc) by lra.
    assert (Hprod : 0 <= q * meas_unc) by nra.
    repeat split.
    + apply Rmult_le_reg_r with (q + meas_unc); [exact Hpos|].
      replace (q * meas_unc / (q + meas_unc) * (q + meas_unc))
        with (q * meas_unc) by (field; exact Hne).
      lra.
    + apply Rmult_le_reg_r with (q + meas_unc); [exact Hpos|].
      replace (q * meas_unc / (q + meas_unc) * (q + meas_unc))
        with (q * meas_unc) by (field; exact Hne).
      nra.
    + apply Rmult_le_reg_r with (q + meas_unc); [exact Hpos|].
      replace (q * meas_unc / (q + meas_unc) * (q + meas_unc))
        with (q * meas_unc) by (field; exact Hne).
      nra.
Qed.

(** *** Positive semi-definiteness *)

(** X5.  [predictCov] keeps a positive semi-definite covariance positive
    semi-definite, for every transition matrix: the variance along [x]
    after the prediction is the variance along [phi^T * x] before it. *)
Theorem predictCov_keeps_psd (dt : R) (f : t) :
  psd size (_state_covariance f) ->
  psd size (_state_covariance (predictCov size getPhi dt f))
  /\ (forall x,
        quad size (_state_covariance (predictCov size getPhi dt f)) x
        = quad size (_state_covariance f)
            (mmul size (transpose (getPhi dt)) x)).
Proof.
  intros Hp.
  assert (Hq : forall x,
    quad size (_state_covariance (predictCov size getPhi dt f)) x
    = quad size (_state_covariance f) (mmul size (transpose (getPhi dt)) x)).
  { intros x. apply quad_sandwich. }
  split; [|exact Hq].
  intros x. rewrite Hq. apply Hp.
Qed.

(** X6.  [update] keeps a symmetric positive semi-definite covariance
    positive semi-definite whenever the stored innovation covariance is at
    least the variance along the measurement row - in particular when it
    was stored by [computeInnovCov] with a measurement uncertainty that is
    not negative, whatever the innovation and whether or not the update is
    accepted. *)
Theorem update_keeps_psd (f : t) :
  symmetric size (_state_covariance f) ->
  psd size (_state_covariance f) ->
  (quad size (_state_covariance f) (_meas_matrix_row_vect f) <= _innov_cov f ->
   psd size (_state_covariance (snd (update size f))))
  /\ (forall meas_unc meas,
        0 <= meas_unc ->
        psd size
          (_state_covariance
             (snd (update size
                     (snd (computeInnov size meas
                             (snd (computeInnovCov size meas_unc f)))))))).
Proof.
  intros Hs Hp. split.
  - intros HS. apply update_psd; assumption.
  - intros meas_unc meas Hr. apply update_psd.
    + exact Hs.
    + exact Hp.
    + change (quad size (_state_covariance f) (_meas_matrix_row_vect f)
              <= quad size (_state_covariance f) (_meas_matrix_row_vect f)
                 + meas_unc).
      lra.
Qed.

End FilterExtras.

Section FilterGate.
Import matrix KF_orientation_unified.

Variable size : nat.
Variable getPhi : R -> Matrix.
Variable inv : Matrix -> Matrix.

(** *** The gate *)

(** X7.  With a positive stored innovation covariance, acceptance is
    monotone: an [update] accepted for some innovation and threshold is
    also accepted for every innovation of smaller or equal magnitude and
    every larger or equal threshold. *)
Theorem update_gate_monotone
    (state sync cov row : Matrix) (d d' s thr thr' : R) :
  0 < s ->
  Rabs d' <= Rabs d ->
  thr <= thr' ->
  fst (update size (mk state sync cov row d s thr)) = true ->
  fst (update size (mk state sync cov row d' s thr')) = true.
Proof.
  intros Hs Hd Hthr Hacc.
  apply update_accepted_inv in Hacc as [Habs Hnis].
  unfold nis in Hnis. simpl in Habs, Hnis.
  apply (update_applies_kalman_correction_aux size
           (mk state sync cov row d' s thr')).
  - exact Habs.
  - unfold nis. simpl.
    apply Rsqr_le_abs_1 in Hd. unfold Rsqr in Hd.
    apply Rle_trans with (d * d / s); [|lra].
    unfold Rdiv. apply Rmult_le_compat_r; [|exact Hd].
    left. apply Rinv_0_lt_compat, Hs.
Qed.

(** X8.  Two degenerate updates.  With a zero innovation, [|S| >= 1e-6]
    and a threshold that is not negative, [update] is accepted and each
    state component is only rewrapped.  With a measurement row that is zero
    in all [State::size] components, an accepted [update] only rewraps the
    state and leaves every entry of the covariance as it was. *)
Theorem update_degenerate (f : t) :
  (_innov f = 0 ->
   Rabs (_innov_cov f) >= innov_cov_min ->
   0 <= _nis_threshold f ->
   fst (update size f) = true
   /\ forall i, (i < size)%nat ->
        _state (snd (update size f)) i 0%nat = wrap_pi (_state f i 0%nat))
  /\ ((forall k, (k < size)%nat -> _meas_matrix_row_vect f k 0%nat = 0) ->
      fst (update size f) = true ->
      (forall i, (i < size)%nat ->
         _state (snd (update size f)) i 0%nat = wrap_pi (_state f i 0%nat))
      /\ forall i j,
           _state_covariance (snd (update size f)) i j
           = _state_covariance f i j).
Proof.
  split.
  - intros Hd HS Hthr.
    assert (Hnis : nis f <= _nis_threshold f).
    { unfold nis. rewrite Hd. unfold Rdiv. rewrite !Rmult_0_l. exact Hthr. }
    destruct (update_applies_kalman_correction_aux size f HS Hnis)
      as [Hacc Hstate].
    split; [exact Hacc|].
    intros i Hi. rewrite (Hstate i Hi), Hd. f_equal. ring.
  - intros Hrow Hacc.
    destruct (update_accepted_inv size f Hacc) as [HS Hnis].
    assert (Hgain : forall i, kalman_gain size f i = 0).
    { intros i. unfold kalman_gain, cov_times_row.
      rewrite (sum_upto_ext size _ (fun _ => 0)).
      - rewrite sum_upto_zero. unfold Rdiv. ring.
      - intros k Hk. rewrite (Hrow k Hk). ring. }
    destruct (update_applies_kalman_correction_aux size f HS Hnis)
      as [_ Hstate].
    split.
    + intros i Hi. rewrite (Hstate i Hi), Hgain. f_equal. ring.
    + intros i j. rewrite (update_accept_covariance size f HS Hnis).
      rewrite Hgain. ring.
Qed.

(** *** What a sequence of calls leaves alone *)

Lemma step_configuration (c : call) (f : t) :
  _nis_threshold (step size getPhi inv c f) = _nis_threshold f
  /\ _meas_matrix_row_vect (step size getPhi inv c f)
     = _meas_matrix_row_vect f.
Proof.
  destruct c; simpl; try (split; reflexivity).
  destruct (Rlt_dec (Rabs (_innov_cov f)) innov_cov_min) as [Hlt|Hge].
  { rewrite update_guard by exact Hlt. split; reflexivity. }
  destruct (Rgt_dec (nis f) (_nis_threshold f)) as [Hgt|Hle].
  { rewrite update_gate by exact Hgt. split; reflexivity. }
  rewrite update_accept by lra. split; reflexivity.
Qed.

Lemma step_sync_state (c : call) (f : t) :
  (forall dt, c <> SyncState dt) ->
  _sync_state (step size getPhi inv c f) = _sync_state f.
Proof.
  intros Hc. destruct c; simpl; try reflexivity.
  - destruct (Rlt_dec (Rabs (_innov_cov f)) innov_cov_min) as [Hlt|Hge].
    { rewrite update_guard by exact Hlt. reflexivity. }
    destruct (Rgt_dec (nis f) (_nis_threshold f)) as [Hgt|Hle].
    { rewrite update_gate by exact Hgt. reflexivity. }
    rewrite update_accept by lra. reflexivity.
  - exfalso. apply (Hc dt). reflexivity.
Qed.

Lemma run_meas_matrix_row_vect (cs : list call) (f : t) :
  _meas_matrix_row_vect (run size getPhi inv cs f) = _meas_matrix_row_vect f.
Proof.
  unfold run. induction cs as [|c cs IH] in f |- *; simpl.
  - reflexivity.
  - rewrite IH. apply step_configuration.
Qed.

(** X9.  No sequence of calls of the six methods changes the NIS threshold
    or the measurement row: predictions, updates, resynchronizations and the
    two innovation computations all leave them as they were. *)
Theorem calls_keep_configuration (cs : list call) (f : t) :
  _nis_threshold (run size getPhi inv cs f) = _nis_threshold f
  /\ _meas_matrix_row_vect (run size getPhi inv cs f)
     = _meas_matrix_row_vect f.
Proof.
  unfold run. induction cs as [|c cs IH] in f |- *; simpl.
  - split; reflexivity.
  - destruct (IH (step size getPhi inv c f)) as [H1 H2].
    destruct (step_configuration c f) as [H3 H4].
    rewrite H1, H2, H3, H4. split; reflexivity.
Qed.

(** X10.  The innovation is taken against the synced state only: after
    any sequence of calls without [syncState] - predictions and updates
    included - [computeInnov] returns the value it would have returned
    before the sequence. *)
Theorem innovation_ignores_unsynced_calls
    (cs : list call) (meas : R) (f : t) :
  (forall c dt, In c cs -> c <> SyncState dt) ->
  _sync_state (run size getPhi inv cs f) = _sync_state f
  /\ fst (computeInnov size meas (run size getPhi inv cs f))
     = fst (computeInnov size meas f).
Proof.
  intros Hcs.
  assert (Hsync : _sync_state (run size getPhi inv cs f) = _sync_state f).
  { unfold run. induction cs as [|c cs IH] in f, Hcs |- *; simpl.
    - reflexivity.
    - rewrite IH.
      + apply step_sync_state. intros dt. apply Hcs. left. reflexivity.
      + intros c' dt Hin. apply Hcs. right. exact Hin. }
  split; [exact Hsync|].
  unfold computeInnov. simpl.
  rewrite Hsync, run_meas_matrix_row_vect. reflexivity.
Qed.

End FilterGate.

(** ** The position estimator: further properties *)

Section EstimatorExtras.
Import VTEPosition.
Local Open Scope Z_scope.

(** *** Freshness of time stamps *)

(** X11.  A time stamp that counts as updated (younger than
    [measurement_updated_TIMEOUT_US]) also counts as valid (younger than
    [measurement_valid_TIMEOUT_US]), at every clock reading. *)
Theorem meas_updated_is_valid (now time_stamp : Z) :
  _is_meas_updated now time_stamp = true ->
  _is_meas_valid now time_stamp = true.
Proof.
  unfold _is_meas_updated, _is_meas_valid,
    measurement_updated_TIMEOUT_US, measurement_valid_TIMEOUT_US.
  rewrite !Z.ltb_lt. lia.
Qed.

Lemma uint64_small (v : Z) : 0 <= v < 2 ^ 64 -> uint64 v = v.
Proof. intros H. unfold uint64. apply Z.mod_small, H. Qed.

Lemma uint64_negative (v : Z) : - 2 ^ 64 <= v < 0 -> uint64 v = v + 2 ^ 64.
Proof.
  intros H. unfold uint64.
  replace v with (v + 2 ^ 64 + (-1) * 2 ^ 64) at 1 by ring.
  rewrite Z.mod_add by lia. apply Z.mod_small. lia.
Qed.

(** X12.  For a time stamp not later than the clock, [_is_meas_valid]
    holds exactly when the age is below one second - a measurement exactly
    one second old is stale.  A time stamp later than the clock is never
    valid: the unsigned difference wraps around to a huge age (as long as
    the time stamp is ahead by no more than [2^64 - 10^6] microseconds). *)
Theorem is_meas_valid_window (now time_stamp : Z) :
  (0 <= time_stamp <= now -> now < 2 ^ 64 ->
   (_is_meas_valid now time_stamp = true <-> now - time_stamp < 1000000))
  /\ (0 <= now < time_stamp -> time_stamp < 2 ^ 64 ->
      time_stamp - now <= 2 ^ 64 - 1000000 ->
      _is_meas_valid now time_stamp = false).
Proof.
  unfold _is_meas_valid, measurement_valid_TIMEOUT_US. split.
  - intros Hts Hnow. rewrite uint64_small by lia.
    rewrite Z.ltb_lt. reflexivity.
  - intros Hnow Hts Hgap. rewrite uint64_negative by lia.
    apply Z.ltb_ge. lia.
Qed.

(** *** The mask predicates *)

Lemma _hasNewVelocitySensorData_bits (m : Z) :
  _hasNewVelocitySensorData m = Z.testbit m 4 || Z.testbit m 1.
Proof.
  unfold _hasNewVelocitySensorData, FUSE_TARGET_GPS_VEL, FUSE_UAV_GPS_VEL.
  rewrite Z.land_lor_distr_r, to_bool_lor.
  rewrite !to_bool_land_flag by lia. reflexivity.
Qed.

(** X13.  Each mask predicate is the disjunction of fixed flags: velocity
    data is the target-GNSS-velocity or the own-GNSS-velocity flag and no
    position flag.  Hence all three predicates are false on
    [NO_VALID_DATA], and on the union of two masks each is the disjunction
    of its values on the two. *)
Theorem mask_predicates_are_disjunctions (m m' : Z) :
  _hasNewVelocitySensorData m = Z.testbit m 4 || Z.testbit m 1
  /\ _hasNewPositionSensorData NO_VALID_DATA = false
  /\ _hasNewNonGpsPositionSensorData NO_VALID_DATA = false
  /\ _hasNewVelocitySensorData NO_VALID_DATA = false
  /\ _hasNewPositionSensorData (Z.lor m m')
     = _hasNewPositionSensorData m || _hasNewPositionSensorData m'
  /\ _hasNewNonGpsPositionSensorData (Z.lor m m')
     = _hasNewNonGpsPositionSensorData m
       || _hasNewNonGpsPositionSensorData m'
  /\ _hasNewVelocitySensorData (Z.lor m m')
     = _hasNewVelocitySensorData m || _hasNewVelocitySensorData m'.
Proof.
  repeat apply conj; try reflexivity.
  - apply _hasNewVelocitySensorData_bits.
  - rewrite !_hasNewPositionSensorData_bits, !Z.lor_spec.
    destruct (Z.testbit m 3), (Z.testbit m 0), (Z.testbit m 2),
      (Z.testbit m' 3), (Z.testbit m' 0), (Z.testbit m' 2); reflexivity.
  - rewrite !_hasNewNonGpsPositionSensorData_bits, !Z.lor_spec.
    destruct (Z.testbit m 2), (Z.testbit m 5),
      (Z.testbit m' 2), (Z.testbit m' 5); reflexivity.
  - rewrite !_hasNewVelocitySensorData_bits, !Z.lor_spec.
    destruct (Z.testbit m 4), (Z.testbit m 1),
      (Z.testbit m' 4), (Z.testbit m' 1); reflexivity.
Qed.

(** X14.  [_should_set_bias] looks at the estimator through the time
    stamp of [_pos_rel_gnss] only - not through its [valid] member or its
    value - and at the mask through the vision and UWB flags only: two
    estimators with the same time stamp and two masks that agree on those
    two flags get the same answer. *)
Theorem should_set_bias_depends_on (now : Z) (e e' : t) (m m' : Z) :
  vs_timestamp (_pos_rel_gnss e) = vs_timestamp (_pos_rel_gnss e') ->
  Z.testbit m 2 = Z.testbit m' 2 ->
  Z.testbit m 5 = Z.testbit m' 5 ->
  _should_set_bias now e m = _should_set_bias now e' m'.
Proof.
  intros Hts H2 H5. unfold _should_set_bias.
  rewrite !_hasNewNonGpsPositionSensorData_bits, Hts, H2, H5. reflexivity.
Qed.

(** X16.  [_hasNewPositionSensorData] does not look at the UWB flag:
    adding [FUSE_UWB] to a mask never changes its answer, while it makes
    [_hasNewNonGpsPositionSensorData] true.  For UWB alone the first says
    no position data and the second says non-GPS position data. *)
Theorem position_sensor_data_ignores_uwb (m : Z) :
  _hasNewPositionSensorData (Z.lor m FUSE_UWB) = _hasNewPositionSensorData m
  /\ _hasNewNonGpsPositionSensorData (Z.lor m FUSE_UWB) = true
  /\ _hasNewPositionSensorData FUSE_UWB = false
  /\ _hasNewNonGpsPositionSensorData FUSE_UWB = true.
Proof.
  repeat apply conj; try reflexivity.
  - rewrite !_hasNewPositionSensorData_bits, !Z.lor_spec.
    replace (Z.testbit FUSE_UWB 3) with false by reflexivity.
    replace (Z.testbit FUSE_UWB 0) with false by reflexivity.
    replace (Z.testbit FUSE_UWB 2) with false by reflexivity.
    rewrite !orb_false_r. reflexivity.
  - rewrite _hasNewNonGpsPositionSensorData_bits, !Z.lor_spec.
    replace (Z.testbit FUSE_UWB 5) with true by reflexivity.
    rewrite !orb_true_r. reflexivity.
Qed.

(** *** On concrete inputs *)

Lemma meas_updated_is_valid_example : _is_meas_valid 5050000 5000000 = true.
Proof. apply meas_updated_is_valid. reflexivity. Defined.

Lemma is_meas_valid_window_example :
  _is_meas_valid 6000000 5000000 = false
  /\ _is_meas_valid 5000000 5000001 = false.
Proof.
  split.
  - destruct (proj1 (is_meas_valid_window 6000000 5000000)
                ltac:(lia) ltac:(lia)) as [H _].
    destruct (_is_meas_valid 6000000 5000000); [|reflexivity].
    specialize (H eq_refl). lia.
  - apply (proj2 (is_meas_valid_window 5000000 5000001)); lia.
Defined.

(** A GNSS-relative position that is flagged invalid, and a mask that also
    carries the target GNSS flag, change nothing for the bias decision. *)
Lemma should_set_bias_depends_on_example :
  _should_set_bias 500000 init FUSE_EXT_VIS_POS
  = _should_set_bias 500000
      (mk false
          {| vs_timestamp := 0; vs_valid := true; vs_xyz := fun _ => 1%R |}
          false true (fun _ => None) (fun _ => 0%R) 0 0 3000000)
      (Z.lor FUSE_EXT_VIS_POS FUSE_TARGET_GPS_POS).
Proof. apply should_set_bias_depends_on; reflexivity. Defined.

End EstimatorExtras.

(** ** The further filter properties on concrete inputs *)

Section FilterExtraExamples.
Import matrix KF_orientation_unified.

(** The yaw filter with identity covariance observing the yaw: the
    variance along the measurement row is 1. *)
Lemma quad_identity_row :
  quad State.size (_state_covariance (yaw_filter 0 0 0 0 9))
       (_meas_matrix_row_vect (yaw_filter 0 0 0 0 9)) = 1.
Proof.
  unfold quad, bilin, mmul, transpose. simpl. unfold identity. simpl. ring.
Qed.

Lemma identity_psd2 : psd State.size identity.
Proof.
  intros x. unfold quad, bilin, mmul, transpose, identity. simpl.
  pose proof (Rle_0_sqr (x 0%nat 0%nat)) as H0.
  pose proof (Rle_0_sqr (x 1%nat 0%nat)) as H1.
  unfold Rsqr in *. lra.
Qed.

Lemma measured_filter_accepts :
  fst (update State.size
         (snd (computeInnov State.size (1 / 2)
                 (snd (computeInnovCov State.size 1 (yaw_filter 0 0 0 0 9))))))
  = true.
Proof.
  apply (update_applies_kalman_correction_aux State.size).
  - change (Rabs (quad State.size
                    (_state_covariance (yaw_filter 0 0 0 0 9))
                    (_meas_matrix_row_vect (yaw_filter 0 0 0 0 9)) + 1)
            >= innov_cov_min).
    rewrite quad_identity_row, Rabs_right by lra. unfold innov_cov_min. lra.
  - unfold nis.
    change (_innov_cov
              (snd (computeInnov State.size (1 / 2)
                      (snd (computeInnovCov State.size 1
                              (yaw_filter 0 0 0 0 9))))))
      with (quad State.size
              (_state_covariance (yaw_filter 0 0 0 0 9))
              (_meas_matrix_row_vect (yaw_filter 0 0 0 0 9)) + 1).
    rewrite quad_identity_row.
    unfold computeInnov, mmul, transpose. simpl. lra.
Qed.

Lemma fresh_innov_cov_example :
  1 / 2
  <= _innov_cov
       (snd (computeInnov State.size 1
               (snd (computeInnovCov State.size (1 / 2)
                       (yaw_filter 0 0 0 0 9))))).
Proof.
  refine (proj1 (fresh_innov_cov_passes_guard State.size (1 / 2) 1
                   (yaw_filter 0 0 0 0 9) _ _)).
  - rewrite quad_identity_row. lra.
  - unfold innov_cov_min. lra.
Defined.

Lemma variance_shrinks_example :
  quad State.size
    (_state_covariance
       (snd (update State.size
               (snd (computeInnov State.size (1 / 2)
                       (snd (computeInnovCov State.size 1
                               (yaw_filter 0 0 0 0 9)))))))) 
    (_meas_matrix_row_vect (yaw_filter 0 0 0 0 9))
  = quad State.size (_state_covariance (yaw_filter 0 0 0 0 9))
         (_meas_matrix_row_vect (yaw_filter 0 0 0 0 9)) * 1
    / (quad State.size (_state_covariance (yaw_filter 0 0 0 0 9))
            (_meas_matrix_row_vect (yaw_filter 0 0 0 0 9)) + 1).
Proof.
  exact (proj1 (update_shrinks_variance_along_row State.size 1 (1 / 2)
                  (yaw_filter 0 0 0 0 9) measured_filter_accepts)).
Defined.

Lemma predictCov_psd_example :
  psd State.size
    (_state_covariance
       (predictCov State.size yaw_getPhi 1 (yaw_filter 0 0 0 0 9))).
Proof.
  exact (proj1 (predictCov_keeps_psd State.size yaw_getPhi 1
                  (yaw_filter 0 0 0 0 9) identity_psd2)).
Defined.

Lemma update_psd_example :
  psd State.size
    (_state_covariance
       (snd (update State.size
               (snd (computeInnov State.size (1 / 2)
                       (snd (computeInnovCov State.size 1
                               (yaw_filter 0 0 0 0 9)))))))).
Proof.
  refine (proj2 (update_keeps_psd State.size (yaw_filter 0 0 0 0 9)
                   (identity_symmetric State.size) identity_psd2)
            1 (1 / 2) _).
  lra.
Defined.

Lemma gate_first_accepts :
  fst (update State.size
         (mk (vec2 0 0) (vec2 0 0) identity (vec2 1 0) 1 2 9)) = true.
Proof.
  apply (update_applies_kalman_correction_aux State.size).
  - simpl. rewrite Rabs_right by lra. unfold innov_cov_min. lra.
  - unfold nis. simpl. lra.
Qed.

Lemma gate_monotone_example :
  fst (update State.size
         (mk (vec2 0 0) (vec2 0 0) identity (vec2 1 0) (1 / 2) 2 10)) = true.
Proof.
  refine (update_gate_monotone State.size (vec2 0 0) (vec2 0 0) identity
            (vec2 1 0) 1 (1 / 2) 2 9 10 _ _ _ gate_first_accepts).
  - lra.
  - rewrite !Rabs_right by lra. lra.
  - lra.
Defined.

Lemma update_degenerate_example :
  fst (update State.size (yaw_filter 1 0 0 2 9)) = true.
Proof.
  refine (proj1 (proj1 (update_degenerate State.size (yaw_filter 1 0 0 2 9))
                   _ _ _)).
  - reflexivity.
  - simpl. rewrite Rabs_right by lra. unfold innov_cov_min. lra.
  - simpl. lra.
Defined.

Lemma innovation_ignores_example :
  fst (computeInnov State.size 1
         (run State.size yaw_getPhi inv2
            [PredictState 1; PredictCov 1; Update]
            (yaw_filter 0 1 0 2 9)))
  = fst (computeInnov State.size 1 (yaw_filter 0 1 0 2 9)).
Proof.
  refine (proj2 (innovation_ignores_unsynced_calls State.size yaw_getPhi inv2
                   [PredictState 1; PredictCov 1; Update] 1
                   (yaw_filter 0 1 0 2 9) _)).
  intros c dt Hin. simpl in Hin.
  destruct Hin as [<- | [<- | [<- | []]]]; discriminate.
Defined.

End FilterExtraExamples.

(** ** Observing one state component *)

Section SingleComponent.
Import matrix KF_orientation_unified.

Variable size : nat.

(** A measurement row that selects component [j]. *)
Lemma unit_row_cov_times_row (f : t) (j i : nat) :
  (j < size)%nat ->
  (forall k, (k < size)%nat -> _meas_matrix_row_vect f k 0%nat = identity k j) ->
  cov_times_row size f i = _state_covariance f i j.
Proof.
  intros Hj Hrow. unfold cov_times_row.
  rewrite (sum_upto_ext size _
             (fun k => _state_covariance f i k * identity k j))
    by (intros k Hk; rewrite (Hrow k Hk); reflexivity).
  apply (sum_upto_delta_r size j (fun k => _state_covariance f i k) Hj).
Qed.

Lemma unit_row_pick (f : t) (v : Matrix) (j : nat) :
  (j < size)%nat ->
  (forall k, (k < size)%nat -> _meas_matrix_row_vect f k 0%nat = identity k j) ->
  mmul size (transpose (_meas_matrix_row_vect f)) v 0%nat 0%nat = v j 0%nat.
Proof.
  intros Hj Hrow. unfold mmul, transpose.
  rewrite (sum_upto_ext size _ (fun k => identity j k * v k 0%nat)).
  - apply (sum_upto_delta_l size j (fun k => v k 0%nat) Hj).
  - intros k Hk. rewrite (Hrow k Hk). unfold identity.
    rewrite (Nat.eqb_sym k j). reflexivity.
Qed.

Lemma unit_row_quad (f : t) (j : nat) :
  (j < size)%nat ->
  (forall k, (k < size)%nat -> _meas_matrix_row_vect f k 0%nat = identity k j) ->
  quad size (_state_covariance f) (_meas_matrix_row_vect f)
  = _state_covariance f j j.
Proof.
  intros Hj Hrow. unfold quad. rewrite bilin_sum_alt.
  rewrite (sum_upto_ext size _
             (fun l => identity j l * cov_times_row size f l)).
  - rewrite (sum_upto_delta_l size j (cov_times_row size f) Hj).
    apply unit_row_cov_times_row; assumption.
  - intros l Hl. rewrite (Hrow l Hl). unfold identity.
    rewrite (Nat.eqb_sym l j). reflexivity.
Qed.

(** X15.  A measurement [z] of state component [j] alone (row selecting
    [j]), fused by [computeInnovCov], [computeInnov] and an accepted
    [update] into a filter whose synced component equals its state component
    [x], with positive variance [p] of that component and positive
    measurement uncertainty [r]: the new component is the wrapped value of
    [x + p / (p + r) * (z - x)], the gain [p / (p + r)] lies strictly
    between 0 and 1, and so the value before wrapping lies strictly between
    the prior [x] and the measurement [z] - pulled toward the measurement,
    never past it. *)
Theorem update_pulls_toward_measurement
    (meas_unc meas : R) (f : t) (j : nat) :
  (j < size)%nat ->
  (forall k, (k < size)%nat -> _meas_matrix_row_vect f k 0%nat = identity k j) ->
  _sync_state f j 0%nat = _state f j 0%nat ->
  0 < _state_covariance f j j ->
  0 < meas_unc ->
  fst (update size
         (snd (computeInnov size meas
                 (snd (computeInnovCov size meas_unc f))))) = true ->
  _state
    (snd (update size
            (snd (computeInnov size meas
                    (snd (computeInnovCov size meas_unc f)))))) j 0%nat
  = wrap_pi (_state f j 0%nat
             + _state_covariance f j j
               / (_state_covariance f j j + meas_unc)
               * (meas - _state f j 0%nat))
  /\ 0 < _state_covariance f j j / (_state_covariance f j j + meas_unc) < 1
  /\ (_state f j 0%nat < meas ->
      _state f j 0%nat
      < _state f j 0%nat
        + _state_covariance f j j / (_state_covariance f j j + meas_unc)
          * (meas - _state f j 0%nat)
      < meas)
  /\ (meas < _state f j 0%nat ->
      meas
      < _state f j 0%nat
        + _state_covariance f j j / (_state_covariance f j j + meas_unc)
          * (meas - _state f j 0%nat)
      < _state f j 0%nat).
Proof.
  intros Hj Hrow Hsync Hp Hr Hacc.
  set (g := snd (computeInnov size meas
                   (snd (computeInnovCov size meas_unc f)))) in *.
  set (p := _state_covariance f j j) in *.
  set (x := _state f j 0%nat) in *.
  assert (HS : _innov_cov g = p + meas_unc).
  { change (_innov_cov g)
      with (quad size (_state_covariance f) (_meas_matrix_row_vect f)
            + meas_unc).
    rewrite (unit_row_quad f j Hj Hrow). reflexivity. }
  assert (Hd : _innov g = meas - x).
  { change (_innov g)
      with (meas - mmul size (transpose (_meas_matrix_row_vect f))
                     (_sync_state f) 0%nat 0%nat).
    rewrite (unit_row_pick f (_sync_state f) j Hj Hrow), Hsync.
    reflexivity. }
  assert (HK : kalman_gain size g j = p / (p + meas_unc)).
  { unfold kalman_gain. rewrite HS.
    rewrite (unit_row_cov_times_row g j j Hj Hrow). reflexivity. }
  destruct (update_accepted_inv size g Hacc) as [Habs Hnis].
  destruct (update_applies_kalman_correction_aux size g Habs Hnis)
    as [_ Hstate].
  assert (Hsum : 0 < p + meas_unc) by lra.
  assert (Hgain : 0 < p / (p + meas_unc) < 1).
  { split.
    - apply Rdiv_lt_0_compat; assumption.
    - apply Rmult_lt_reg_r with (p + meas_unc); [exact Hsum|].
      replace (p / (p + meas_unc) * (p + meas_unc)) with p by (field; lra).
      lra. }
  split; [|split; [exact Hgain|]].
  - rewrite (Hstate j Hj), HK, Hd. reflexivity.
  - set (k := p / (p + meas_unc)) in *. split; intros Hlt; nra.
Qed.

End SingleComponent.

Section SingleComponentExample.
Import matrix KF_orientation_unified.

(** Yaw 0 with variance 1, measured as 1/2 with uncertainty 1: the new yaw
    is the wrapped value of [0 + 1 / (1 + 1) * (1/2 - 0)]. *)
Lemma pulls_toward_measurement_example :
  _state
    (snd (update State.size
            (snd (computeInnov State.size (1 / 2)
                    (snd (computeInnovCov State.size 1
                            (yaw_filter 0 0 0 0 9))))))) State.yaw 0%nat
  = wrap_pi (0 + 1 / (1 + 1) * (1 / 2 - 0)).
Proof.
  refine (proj1 (update_pulls_toward_measurement State.size 1 (1 / 2)
                   (yaw_filter 0 0 0 0 9) State.yaw _ _ _ _ _
                   measured_filter_accepts)).
  - unfold State.yaw, State.size. lia.
  - intros k Hk. unfold State.size in Hk.
    destruct k as [|[|k]]; try lia; reflexivity.
  - reflexivity.
  - simpl. unfold identity. simpl. lra.
  - lra.
Defined.

End SingleComponentExample.
